(** * Supervised bank-account actors (src/index.ts)

    A shallow embedding of [createSuperVisor], of the [bankAccountHandler]
    the demo program instantiates the actor with, and of the small part of
    the [effect] runtime these functions call ([Effect.gen] sequencing,
    [Effect.retry], [Console.log], [Queue.offer], [Queue.take], [Ref.get],
    [Ref.set]).  [createSupervisedActor] is the same function up to the texts
    it prints.

    Conventions of the embedding.
    - An [Effect.Effect<A, E>] is a description that can be run many times.
      A run starts from the external state [X] it may consult (clock,
      network, ...) and gives an exit value, the lines it wrote to the
      console, and the external state it leaves behind.
    - A run ends in one of the exits of the runtime: a success, a typed
      failure (the [E] channel; [never] in the declared type of the handler,
      any type here), a defect (a thrown value, kept as its text), or an
      interruption.
    - The handler is written over the arithmetic of JavaScript numbers, an
      interface with two instances: float64, which is what the program runs
      on, and the integers, whose arithmetic is exact.
    - State values are immutable: the handler under study builds new objects
      and never writes into the one it is given. *)

From Stdlib Require Import String Ascii List ZArith Lia.
From Stdlib Require Import DecimalString.
From Stdlib Require Import Sorted.
From Stdlib Require Import Floats.
Import ListNotations.

Local Open Scope list_scope.

(** The line feed character of the template literals. *)
Definition nl : string := String (ascii_of_nat 10) EmptyString.

(* ------------------------------------------------------------------ *)
(** ** The part of the [effect] runtime used by the source *)

(** Exit values of one run of an effect. *)
Inductive Exit (E A : Type) : Type :=
| Success (a : A)
| Failure (e : E)
| Die (defect : string)
| Interrupt.

Arguments Success {E A} a.
Arguments Failure {E A} e.
Arguments Die {E A} defect.
Arguments Interrupt {E A}.

Definition isFailure {E A} (x : Exit E A) : bool :=
  match x with Failure _ => true | _ => false end.

Definition isSuccess {E A} (x : Exit E A) : bool :=
  match x with Success _ => true | _ => false end.

(** One run of an effect. *)
Record Run (X E A : Type) : Type := mkRun
  { exit : Exit E A;
    output : list string;
    after : X }.

Arguments mkRun {X E A} exit output after.
Arguments exit {X E A} r.
Arguments output {X E A} r.
Arguments after {X E A} r.

Module Effect.

Definition t (X E A : Type) : Type := X -> Run X E A.

Definition succeed {X E A} (a : A) : t X E A := fun x => mkRun (Success a) [] x.
Definition fail {X E A} (e : E) : t X E A := fun x => mkRun (Failure e) [] x.
Definition die {X E A} (defect : string) : t X E A :=
  fun x => mkRun (Die defect) [] x.

(** Sequencing of [yield*] inside [Effect.gen]: a run that does not
    succeed ends the generator, the rest is never resumed. *)
Definition flatMap {X E A B} (m : t X E A) (k : A -> t X E B) : t X E B :=
  fun x =>
    let r := m x in
    match exit r with
    | Success a =>
        let r' := k a (after r) in
        mkRun (exit r') (output r ++ output r') (after r')
    | Failure e => mkRun (Failure e) (output r) (after r)
    | Die d => mkRun (Die d) (output r) (after r)
    | Interrupt => mkRun Interrupt (output r) (after r)
    end.

(** [Effect.retry(self, { times })]: [self] is run once; each typed failure
    is answered by one more run while the budget of [times] retries lasts.
    A success, a defect or an interruption is returned as it is, and when
    the budget is used up the failure of the last run is the result. *)
Fixpoint retry {X E A} (self : t X E A) (times : nat) (x : X) : Run X E A :=
  let r := self x in
  match exit r with
  | Failure e =>
      match times with
      | O => r
      | S n =>
          let r' := retry self n (after r) in
          mkRun (exit r') (output r ++ output r') (after r')
      end
  | _ => r
  end.

(** The run number [k] (from 0) of [self] when it is run over and over,
    starting from [x]. *)
Fixpoint nthRun {X E A} (self : t X E A) (k : nat) (x : X) : Run X E A :=
  match k with
  | O => self x
  | S n => nthRun self n (after (self x))
  end.

(** The same effect with a counter of its runs added to the external state;
    the effect itself never sees the counter. *)
Definition counted {X E A} (self : t X E A) : t (X * nat) E A :=
  fun x =>
    let r := self (fst x) in
    mkRun (exit r) (output r) (after r, S (snd x)).

End Effect.

Arguments Effect.retry : simpl never.

Declare Scope effect_scope.
Delimit Scope effect_scope with effect.
Notation "x <- m ;; k" := (Effect.flatMap m (fun x => k))
  (at level 61, m at next level, right associativity) : effect_scope.
Notation "m ;; k" := (Effect.flatMap m (fun _ => k))
  (at level 61, right associativity) : effect_scope.

Module Console.
(** [Console.log(line)]: writes one line. *)
Definition log {X E} (line : string) : Effect.t X E unit :=
  fun x => mkRun (Success tt) [line] x.

(** [Console.error(line)]: writes one line as well; the console keeps what
    is written through [log] and through [error] in one sequence. *)
Definition error {X E} (line : string) : Effect.t X E unit :=
  fun x => mkRun (Success tt) [line] x.
End Console.

Module Queue.
(** [Queue.unbounded()]: a FIFO queue without capacity; nothing in the
    source ever shuts it down. *)
Definition unbounded {A} : list A := [].

(** [Queue.offer(queue, value)] on an unbounded queue: the value is put at
    the back and the answer is [true]. *)
Definition offer {A} (queue : list A) (value : A) : bool * list A :=
  (true, queue ++ [value]).

(** [Queue.take(queue)]: the oldest value, or [None] when the queue is
    empty and the taking fiber has to wait. *)
Definition take {A} (queue : list A) : option (A * list A) :=
  match queue with
  | [] => None
  | value :: rest => Some (value, rest)
  end.
End Queue.

(* ------------------------------------------------------------------ *)
(** ** The supervised actor *)

(** [ActorMessage<Message>]: the three envelopes of the mailbox. *)
Inductive ActorMessage (Msg : Type) : Type :=
| Message (payload : Msg)
| Stop
| Restart.

Arguments Message {Msg} payload.
Arguments Stop {Msg}.
Arguments Restart {Msg}.

(** What calling a JavaScript function gives: the value it returns, or the
    value it throws before returning. *)
Inductive Call (A : Type) : Type :=
| Returns (value : A)
| Throws (thrown : string).

Arguments Returns {A} value.
Arguments Throws {A} thrown.

(** The fiber forked for [actorLoop]: still running, or ended with an exit. *)
Inductive Fiber (E : Type) : Type :=
| Running
| Done (ended : Exit E unit).

Arguments Running {E}.
Arguments Done {E} ended.

(** The cells [createSuperVisor] allocates ([queue], [stateRef], [fiberRef])
    together with the console and the external state the handler runs in. *)
Record Actor (X E State Msg : Type) : Type := mkActor
  { queue : list (ActorMessage Msg);
    stateRef : State;
    fiberRef : Fiber E;
    console : list string;
    ext : X }.

Arguments mkActor {X E State Msg} queue stateRef fiberRef console ext.
Arguments queue {X E State Msg} a.
Arguments stateRef {X E State Msg} a.
Arguments fiberRef {X E State Msg} a.
Arguments console {X E State Msg} a.
Arguments ext {X E State Msg} a.

Section SuperVisor.

Context {X E State Msg : Type}.

Variable name : string.
Variable initalState : State.
Variable handler : State -> Msg -> Call (Effect.t X E State).

Local Abbreviation actor := (Actor X E State Msg).

Definition setQueue (q : list (ActorMessage Msg)) (a : actor) : actor :=
  mkActor q (stateRef a) (fiberRef a) (console a) (ext a).

(** [Ref.set(stateRef, value)] *)
Definition setState (value : State) (a : actor) : actor :=
  mkActor (queue a) value (fiberRef a) (console a) (ext a).

(** The loop fiber ends with the exit [ended]. *)
Definition finish (ended : Exit E unit) (a : actor) : actor :=
  mkActor (queue a) (stateRef a) (Done ended) (console a) (ext a).

(** What a run inside the loop leaves behind: its lines on the console and
    the external state. *)
Definition absorb {A} (r : Run X E A) (a : actor) : actor :=
  mkActor (queue a) (stateRef a) (fiberRef a) (console a ++ output r) (after r).

(** [yield* Console.log(line)] in the loop. *)
Definition logLine (line : string) (a : actor) : actor :=
  absorb (Console.log (E := E) line (ext a)) a.

(** The body of [while (true)] in [actorLoop] once [Queue.take] has handed
    over [msg].  [break] and the [catch] clause, which sits outside the
    [while], both leave the loop, and the generator then returns.  A run of
    the retried effect that does not succeed is not an exception of the
    generator: the generator is not resumed and the fiber ends with that
    exit.  Only the call [handler(currentState, msg.payload)] itself is
    evaluated by the generator, so only a value it throws reaches [catch]. *)
Definition loopBody (msg : ActorMessage Msg) (a : actor) : actor :=
  match msg with
  | Stop =>
      finish (Success tt)
        (logLine (nl ++ "[" ++ name ++ "] Shutting down...") a)
  | Restart =>
      setState initalState
        (logLine (nl ++ "[" ++ name ++ "] 🔄 Restarting to initial state...") a)
  | Message payload =>
      let a1 := logLine "Message Received" a in
      let currentState := stateRef a1 in
      match handler currentState payload with
      | Throws e =>
          finish (Success tt) (logLine ("[" ++ name ++ "] Error " ++ e) a1)
      | Returns op =>
          let r := Effect.retry op 3 (ext a1) in
          match exit r with
          | Success newState => setState newState (absorb r a1)
          | Failure e => finish (Failure e) (absorb r a1)
          | Die d => finish (Die d) (absorb r a1)
          | Interrupt => finish Interrupt (absorb r a1)
          end
      end
  end.

(** One turn of [actorLoop]: a running fiber takes the oldest envelope and
    runs the body on it; with an empty queue it waits, and a fiber that has
    ended does nothing any more. *)
Definition actorLoop (a : actor) : option actor :=
  match fiberRef a with
  | Running =>
      match Queue.take (queue a) with
      | Some (msg, rest) => Some (loopBody msg (setQueue rest a))
      | None => None
      end
  | Done _ => None
  end.

(** [createSuperVisor(name, initalState, handler)]: the cells and the forked
    loop.  The line the loop writes when it starts is put on the console
    here: the loop writes it before it takes its first envelope, and nothing
    else in the actor writes before that. *)
Definition createSuperVisor (x : X) : actor :=
  logLine (nl ++ " [" ++ name ++ "] Actor started and listing")
    (mkActor Queue.unbounded initalState Running [] x).

(** The handle returned to the caller. *)
Definition enqueue (msg : ActorMessage Msg) (a : actor) : bool * actor :=
  let r := Queue.offer (queue a) msg in (fst r, setQueue (snd r) a).

Definition send (message : Msg) (a : actor) : bool * actor :=
  enqueue (Message message) a.

Definition stop (a : actor) : bool * actor := enqueue Stop a.

Definition restart (a : actor) : bool * actor := enqueue Restart a.

Definition getState (a : actor) : State := stateRef a.

(** What can happen to one actor: a call on its handle by any caller, or a
    turn of its own loop. *)
Inductive Action : Type :=
| CallSend (message : Msg)
| CallStop
| CallRestart
| Turn.

Definition envelopeOf (x : Action) : option (ActorMessage Msg) :=
  match x with
  | CallSend message => Some (Message message)
  | CallStop => Some Stop
  | CallRestart => Some Restart
  | Turn => None
  end.

Definition turn (a : actor) : actor :=
  match actorLoop a with
  | Some a' => a'
  | None => a
  end.

Definition act (a : actor) (x : Action) : actor :=
  match x with
  | CallSend message => snd (send message a)
  | CallStop => snd (stop a)
  | CallRestart => snd (restart a)
  | Turn => turn a
  end.

(** A schedule: calls and turns in the order in which they happen. *)
Definition run (schedule : list Action) (a : actor) : actor :=
  fold_left act schedule a.

(** [Effect.fork] ties the loop to the fiber that created the actor: when
    that fiber ends, a loop that is still running is interrupted (here
    between two turns); a loop that has ended stays as it ended. *)
Definition interrupt (a : actor) : actor :=
  match fiberRef a with
  | Running => finish Interrupt a
  | Done _ => a
  end.

(** The life of an actor: what is done to it and by it, and the end of the
    fiber that created it. *)
Inductive Event : Type :=
| Does (x : Action)
| CreatorEnds.

Definition happen (a : actor) (ev : Event) : actor :=
  match ev with
  | Does x => act a x
  | CreatorEnds => interrupt a
  end.

Definition live (events : list Event) (a : actor) : actor :=
  fold_left happen events a.

Fixpoint turns (n : nat) (a : actor) : actor :=
  match n with
  | O => a
  | S k => turns k (turn a)
  end.

(** The loop left alone until it waits or has ended: each turn takes one
    envelope, so as many turns as there are envelopes suffice. *)
Definition drain (a : actor) : actor := turns (length (queue a)) a.

(** The envelopes a schedule puts into the mailbox, in order. *)
Fixpoint offered (schedule : list Action) : list (ActorMessage Msg) :=
  match schedule with
  | [] => []
  | x :: rest =>
      match envelopeOf x with
      | Some msg => msg :: offered rest
      | None => offered rest
      end
  end.

(** The handler folded from the left over the payloads, each application
    being the retried run of the loop; the fold ends at the first payload
    whose application does not succeed. *)
Fixpoint foldUntilFailure (state : State) (payloads : list Msg) (x : X)
  : State :=
  match payloads with
  | [] => state
  | m :: rest =>
      match handler state m with
      | Throws _ => state
      | Returns op =>
          let r := Effect.retry op 3 x in
          match exit r with
          | Success newState => foldUntilFailure newState rest (after r)
          | _ => state
          end
      end
  end.

(** The fold of the specification: a payload whose application fails acts as
    the identity and the fold goes on with the next one. *)
Fixpoint foldSkippingFailures (state : State) (payloads : list Msg) (x : X)
  : State :=
  match payloads with
  | [] => state
  | m :: rest =>
      match handler state m with
      | Throws _ => foldSkippingFailures state rest x
      | Returns op =>
          let r := Effect.retry op 3 x in
          match exit r with
          | Success newState => foldSkippingFailures newState rest (after r)
          | _ => foldSkippingFailures state rest (after r)
          end
      end
  end.

End SuperVisor.

(* ------------------------------------------------------------------ *)
(** ** The bank account handler *)

(** The wall clock read by [Date.now()]: the readings it is going to give,
    one after the other, and how many have been taken. *)
Record Clock : Type := mkClock
  { readings : nat -> Z;
    taken : nat }.

Module Date.
Definition now {E} : Effect.t Clock E Z :=
  fun c => mkRun (Success (readings c (taken c))) []
                 (mkClock (readings c) (S (taken c))).
End Date.

(** What the handler does with JavaScript numbers: [+], [-], [<], and the
    text a template literal puts in place of a number. *)
Class Number : Type := mkNumber
  { num : Type;
    plus : num -> num -> num;
    minus : num -> num -> num;
    less : num -> num -> bool;
    show : num -> string }.

Arguments show : simpl never.

Declare Scope number_scope.
Delimit Scope number_scope with number.
Notation "x + y" := (plus x y) : number_scope.
Notation "x - y" := (minus x y) : number_scope.
Notation "x <? y" := (less x y) : number_scope.

(** The integers: numbers whose arithmetic is exact. *)
Definition showZ (n : Z) : string := NilZero.string_of_int (Z.to_int n).

Arguments showZ : simpl never.

#[export] Instance IntegerNumber : Number :=
  mkNumber Z Z.add Z.sub Z.ltb showZ.

Canonical Structure IntegerNumber.

(** The value of a float64 that is an integer (of any other finite float64,
    its integer part). *)
Definition integerValue (f : float) : Z :=
  match Prim2SF f with
  | S754_finite negative m e =>
      let magnitude :=
        if (0 <=? e)%Z then (Z.pos m * 2 ^ e)%Z
        else (Z.pos m / 2 ^ (- e))%Z in
      if negative then (- magnitude)%Z else magnitude
  | _ => 0%Z
  end.

(** The text of a float64 that is an integer below 10^21, of NaN and of the
    infinities; these are the numbers printed in the runs on float64 below.
    The digits of a fraction are not worked out. *)
Definition integerText (f : float) : string :=
  match Prim2SF f with
  | S754_nan => "NaN"
  | S754_infinity false => "Infinity"
  | S754_infinity true => "-Infinity"
  | _ => showZ (integerValue f)
  end.

(** float64, the numbers of the program.  The conversion of a number to its
    text belongs to the JavaScript runtime and is taken as [toString]. *)
Definition Float64 (toString : float -> string) : Number :=
  mkNumber float PrimFloat.add PrimFloat.sub PrimFloat.ltb toString.

(** float64 for runs that only print integers: [Float64 integerText]. *)
Definition Float64Integers : Number :=
  mkNumber float PrimFloat.add PrimFloat.sub PrimFloat.ltb integerText.

Canonical Structure Float64Integers.

Record Transaction {N : Number} : Type := mkTransaction
  { type : string;
    amount : num;
    timestamp : Z }.

Arguments Transaction {N}.
Arguments mkTransaction {N} type amount timestamp.
Arguments type {N} t.
Arguments amount {N} t.
Arguments timestamp {N} t.

Record BankAccount {N : Number} : Type := mkBankAccount
  { balance : num;
    transactions : list Transaction }.

Arguments BankAccount {N}.
Arguments mkBankAccount {N} balance transactions.
Arguments balance {N} b.
Arguments transactions {N} b.

Inductive BankMessage {N : Number} : Type :=
| deposit (amount : num)
| withdraw (amount : num)
| transfer (to : string) (amount : num).

Arguments BankMessage {N}.
Arguments deposit {N} amount.
Arguments withdraw {N} amount.
Arguments transfer {N} to amount.

Local Open Scope effect_scope.
Local Open Scope number_scope.

(** [bankAccountHandler]: the call returns at once with the effect built by
    [Effect.gen]; its error channel is [never], so it fits every [E]. *)
Definition bankAccountHandler {N : Number} {E}
    (state : BankAccount) (message : BankMessage)
  : Call (Effect.t Clock E BankAccount) :=
  Returns
    (timestamp <- Date.now ;;
     match message with
     | deposit amount =>
         Console.log (nl ++ "💰 DEPOSIT: $" ++ show amount) ;;
         Console.log ("   Before: $" ++ show (balance state)) ;;
         let newDepositBalance := balance state + amount in
         Console.log ("   After:  $" ++ show newDepositBalance) ;;
         Console.log "   ✅ Success!" ;;
         Effect.succeed
           (mkBankAccount newDepositBalance
              (transactions state ++ [mkTransaction "deposit" amount timestamp]))
     | withdraw amount =>
         Console.log (nl ++ "💸 WITHDRAWAL: $" ++ show amount) ;;
         Console.log ("   Current balance: $" ++ show (balance state)) ;;
         if balance state <? amount then
           Console.log "   ❌ REJECTED: Insufficient funds!" ;;
           Console.log ("   Need: $" ++ show (amount - balance state) ++ " more") ;;
           Effect.succeed state
         else
           let newWithdrawBalance := balance state - amount in
           Console.log ("   New balance: $" ++ show newWithdrawBalance) ;;
           Console.log "   ✅ Success!" ;;
           Effect.succeed
             (mkBankAccount newWithdrawBalance
                (transactions state ++ [mkTransaction "withdraw" amount timestamp]))
     | transfer to amount =>
         Console.log (nl ++ "🔄 TRANSFER: $" ++ show amount ++ " → " ++ to) ;;
         Console.log ("   Current balance: $" ++ show (balance state)) ;;
         if balance state <? amount then
           Console.log "   ❌ REJECTED: Insufficient funds!" ;;
           Effect.succeed state
         else
           let newTransferBalance := balance state - amount in
           Console.log ("   New balance: $" ++ show newTransferBalance) ;;
           Console.log ("   ✅ Transfer initiated to " ++ to) ;;
           Effect.succeed
             (mkBankAccount newTransferBalance
                (transactions state ++ [mkTransaction "transfer" amount timestamp]))
     end).

(** The total the demo program computes from a transaction history with
    [reduce] ([aliceTotal], [bobTotal]), for any opening balance. *)
Definition accountTotal {N : Number} (opening : num)
    (history : list Transaction) : num :=
  fold_left
    (fun sum tx =>
       if String.eqb (type tx) "deposit" then sum + amount tx
       else sum - amount tx)
    history opening.

Local Close Scope effect_scope.
Local Close Scope number_scope.

(** The ledger equation on the integers: the balance is the opening balance
    plus what the recorded deposits add, minus what the recorded withdrawals
    and transfers take away. *)
Fixpoint sumOf (kind : string) (records : list Transaction) : Z :=
  match records with
  | [] => 0
  | r :: rest =>
      ((if String.eqb (type r) kind then amount r else 0) + sumOf kind rest)%Z
  end.

Definition ledger (opening : Z) (state : BankAccount) : Prop :=
  balance state
  = (opening + sumOf "deposit" (transactions state)
     - sumOf "withdraw" (transactions state)
     - sumOf "transfer" (transactions state))%Z.

(** The records the handler writes are of these three kinds. *)
Definition ofKnownKind {N : Number} (r : Transaction) : Prop :=
  type r = "deposit"%string \/ type r = "withdraw"%string \/
  type r = "transfer"%string.

(* ------------------------------------------------------------------ *)
(** ** Small handlers to exercise the loop *)

Local Open Scope string_scope.

(** A service that is down for its first three calls; the external state
    counts the calls made so far. *)
Definition flaky : Effect.t nat string nat :=
  fun calls =>
    if Nat.ltb calls 3 then mkRun (Failure "down") ["call failed"] (S calls)
    else mkRun (Success calls) ["call answered"] (S calls).

(** A counter with one message for each way a handler can go wrong. *)
Inductive Probe : Type :=
| Increment
| AlwaysFail
| Crash
| ThrowAtCall.

Definition probeHandler (state : nat) (message : Probe)
  : Call (Effect.t unit string nat) :=
  match message with
  | Increment => Returns (Effect.succeed (S state))
  | AlwaysFail => Returns (Effect.fail "boom")
  | Crash => Returns (Effect.die "crash")
  | ThrowAtCall => Throws "thrown"
  end.

Definition probeActor : Actor unit string nat Probe :=
  createSuperVisor "probe" 0 tt.

(** A handler that asks the flaky service and stores its answer. *)
Definition flakyHandler (state : nat) (message : unit)
  : Call (Effect.t nat string nat) :=
  Returns flaky.

Definition probeTurn := turn "probe" 0 probeHandler.
Definition probeRun := run "probe" 0 probeHandler.
Definition probeDrain := drain "probe" 0 probeHandler.

Local Close Scope string_scope.

(** A fiber that is running, has ended normally, or was interrupted. *)
Definition endsWell {E} (f : Fiber E) : Prop :=
  f = Running \/ f = Done (Success tt) \/ f = Done Interrupt.

(** An envelope whose payload, if it has one, has the property [Q]. *)
Definition admits {Msg} (Q : Msg -> Prop) (msg : ActorMessage Msg) : Prop :=
  match msg with
  | Message payload => Q payload
  | _ => True
  end.

(** Two actors that agree on everything but the texts on their consoles. *)
Definition sameCells {X E State Msg} (a b : Actor X E State Msg) : Prop :=
  queue a = queue b /\
  stateRef a = stateRef b /\
  fiberRef a = fiberRef b /\
  ext a = ext b /\
  length (console a) = length (console b).

(* ------------------------------------------------------------------ *)
(** ** The actor of the demo program: [createSupervisedActor] *)

Module Supervised.

Section SupervisedActor.

Context {X E State Msg : Type}.

Variable name : string.
Variable initialState : State.
Variable handler : State -> Msg -> Call (Effect.t X E State).

Local Abbreviation actor := (Actor X E State Msg).

(** [yield* Console.error(line)] in the loop. *)
Definition errorLine (line : string) (a : actor) : actor :=
  absorb (Console.error (E := E) line (ext a)) a.

(** The body of [while (true)] in the [actorLoop] of [createSupervisedActor],
    read like the one of [createSuperVisor]. *)
Definition loopBody (msg : ActorMessage Msg) (a : actor) : actor :=
  match msg with
  | Stop =>
      finish (Success tt)
        (logLine (nl ++ "[" ++ name ++ "] 🛑 Shutting down...") a)
  | Restart =>
      setState initialState
        (logLine (nl ++ "[" ++ name ++ "] 🔄 Restarting to initial state...") a)
  | Message payload =>
      let a1 := logLine (nl ++ "[" ++ name ++ "] 📨 Message received") a in
      let currentState := stateRef a1 in
      match handler currentState payload with
      | Throws e =>
          finish (Success tt)
            (errorLine ("[" ++ name ++ "] ❌ Error: " ++ e) a1)
      | Returns op =>
          let r := Effect.retry op 3 (ext a1) in
          match exit r with
          | Success newState => setState newState (absorb r a1)
          | Failure e => finish (Failure e) (absorb r a1)
          | Die d => finish (Die d) (absorb r a1)
          | Interrupt => finish Interrupt (absorb r a1)
          end
      end
  end.

Definition actorLoop (a : actor) : option actor :=
  match fiberRef a with
  | Running =>
      match Queue.take (queue a) with
      | Some (msg, rest) => Some (loopBody msg (setQueue rest a))
      | None => None
      end
  | Done _ => None
  end.

(** [createSupervisedActor(name, initialState, handler)] *)
Definition createSupervisedActor (x : X) : actor :=
  logLine (nl ++ "🎭 [" ++ name ++ "] Actor started and listening...")
    (mkActor Queue.unbounded initialState Running [] x).

Definition turn (a : actor) : actor :=
  match actorLoop a with
  | Some a' => a'
  | None => a
  end.

(** The handle is the one of [createSuperVisor]: three calls of
    [Queue.offer] and one of [Ref.get]. *)
Definition act (a : actor) (x : Action) : actor :=
  match x with
  | CallSend message => snd (send message a)
  | CallStop => snd (stop a)
  | CallRestart => snd (restart a)
  | Turn => turn a
  end.

Definition run (schedule : list Action) (a : actor) : actor :=
  fold_left act schedule a.

Definition happen (a : actor) (ev : Event) : actor :=
  match ev with
  | Does x => act a x
  | CreatorEnds => interrupt a
  end.

Definition live (events : list Event) (a : actor) : actor :=
  fold_left happen events a.

End SupervisedActor.

End Supervised.


(** What the loop keeps about the history of an account: the clock is the
    one the actor was created with, the times recorded are in order, and
    none of them is later than the next reading of the clock. *)
Definition chronological {N : Number} {E} (ticks : nat -> Z)
    (a : Actor Clock E BankAccount BankMessage) : Prop :=
  readings (ext a) = ticks /\
  StronglySorted Z.le (map timestamp (transactions (stateRef a))) /\
  Forall (fun t => (t <= ticks (taken (ext a)))%Z)
         (map timestamp (transactions (stateRef a))).

(* ------------------------------------------------------------------ *)
(** ** [printBox] *)

(** A JavaScript string is a sequence of UTF-16 code units, and [length],
    [repeat] and [padEnd] count code units; the code units are kept abstract
    here, those of the frame being named. *)
Section PrintBox.

Variable char : Type.
Variables space horizontal vertical : char.
Variables topLeft topRight teeLeft teeRight bottomLeft bottomRight : char.

(** [str.padEnd(targetLength)]: spaces are added up to the target length; a
    string that is long enough already is returned as it is. *)
Definition padEnd (str : list char) (targetLength : nat) : list char :=
  if targetLength <=? length str then str
  else str ++ repeat space (targetLength - length str).

(** A row of the box around [text]. *)
Definition boxRow (width : nat) (text : list char) : list char :=
  [vertical; space] ++ padEnd text (width - 2) ++ [space; vertical].

(** [printBox(title, content)]: the lines it writes with [console.log]. *)
Definition printBox (title : list char) (content : list (list char))
  : list (list char) :=
  let width := 60 in
  let line := repeat horizontal width in
  [ [topLeft] ++ line ++ [topRight];
    boxRow width title;
    [teeLeft] ++ line ++ [teeRight] ]
  ++ map (boxRow width) content
  ++ [ [bottomLeft] ++ line ++ [bottomRight] ].

End PrintBox.

(* ------------------------------------------------------------------ *)
(** ** The retry executor *)

Lemma retry_unfold {X E A} (op : Effect.t X E A) (times : nat) (x : X) :
  Effect.retry op times x =
  match exit (op x) with
  | Failure e =>
      match times with
      | O => op x
      | S n =>
          let r' := Effect.retry op n (after (op x)) in
          mkRun (exit r') (output (op x) ++ output r') (after r')
      end
  | _ => op x
  end.
Proof. destruct times; reflexivity. Qed.

Section Retry.

Context {X E A : Type}.
Variable op : Effect.t X E A.

Lemma counted_run (x : X) (c : nat) :
  Effect.counted op (x, c) = mkRun (exit (op x)) (output (op x)) (after (op x), S c).
Proof. reflexivity. Qed.

(** Counting the runs changes nothing else. *)
Lemma retry_counted_same (times : nat) : forall (x : X) (c : nat),
  exit (Effect.retry (Effect.counted op) times (x, c))
    = exit (Effect.retry op times x) /\
  output (Effect.retry (Effect.counted op) times (x, c))
    = output (Effect.retry op times x) /\
  fst (after (Effect.retry (Effect.counted op) times (x, c)))
    = after (Effect.retry op times x).
Proof.
  induction times as [|n IH]; intros x c;
    rewrite (retry_unfold op _ x), (retry_unfold (Effect.counted op) _ (x, c)),
      !counted_run;
    cbn [exit output after fst snd].
  - destruct (exit (op x)) eqn:Hop; cbn [exit output after fst snd];
      rewrite ?Hop; auto.
  - destruct (exit (op x)) eqn:Hop; cbn [exit output after fst snd];
      rewrite ?Hop; auto.
    destruct (IH (after (op x)) (S c)) as (He & Ho & Ha).
    rewrite He, Ho, Ha. auto.
Qed.

(** The result of [retry] is the outcome of one of the first [times + 1]
    runs, and that run is the last one made: every run before it failed, and
    it is either the last one the budget allows or a run that did not fail. *)
Lemma retry_counted_runs (times : nat) : forall (x : X) (c : nat),
  exists k,
    k <= times /\
    snd (after (Effect.retry (Effect.counted op) times (x, c))) = c + S k /\
    exit (Effect.retry op times x) = exit (Effect.nthRun op k x) /\
    after (Effect.retry op times x) = after (Effect.nthRun op k x) /\
    (forall j, j < k -> isFailure (exit (Effect.nthRun op j x)) = true) /\
    (k < times -> isFailure (exit (Effect.nthRun op k x)) = false).
Proof.
  induction times as [|n IH]; intros x c;
    rewrite (retry_unfold op _ x), (retry_unfold (Effect.counted op) _ (x, c)),
      !counted_run;
    cbn [exit output after fst snd].
  - exists 0. cbn [Effect.nthRun].
    destruct (exit (op x)) eqn:Hop; cbn [exit output after fst snd];
      rewrite ?Hop; repeat split; lia.
  - destruct (exit (op x)) eqn:Hop; cbn [exit output after fst snd].
    + exists 0. cbn [Effect.nthRun]. rewrite Hop. repeat split; lia.
    + destruct (IH (after (op x)) (S c))
        as (k & Hk & Hruns & Hexit & Hafter & Hbefore & Hlast).
      exists (S k). cbn [Effect.nthRun].
      split; [lia|]. split; [lia|]. split; [exact Hexit|].
      split; [exact Hafter|]. split.
      * intros [|j] Hj; cbn [Effect.nthRun]; [rewrite Hop; reflexivity|].
        apply Hbefore. lia.
      * intros Hlt. apply Hlast. lia.
    + exists 0. cbn [Effect.nthRun]. rewrite Hop. repeat split; lia.
    + exists 0. cbn [Effect.nthRun]. rewrite Hop. repeat split; lia.
Qed.

(** A first run that succeeds is the only one. *)
Lemma retry_first_success (times : nat) (x : X) (a : A) :
  exit (op x) = Success a ->
  Effect.retry op times x = op x /\
  forall c, snd (after (Effect.retry (Effect.counted op) times (x, c))) = S c.
Proof.
  intros Hexit. split; [|intros c];
    rewrite retry_unfold, ?counted_run; cbn [exit output after fst snd];
    rewrite Hexit; reflexivity.
Qed.

End Retry.

(** C2 (as amended).  [Effect.retry(op, { times })] runs [op] at most
    [times + 1] times, which is four times for the [{ times: 3 }] of the
    loop: it stops at the first run that succeeds, and when every run fails
    its result is the failure of the last one. *)
Theorem retry_runs_op_at_most_times_plus_one
    {X E A : Type} (op : Effect.t X E A) (times : nat) (x : X) :
  let made := snd (after (Effect.retry (Effect.counted op) times (x, 0))) in
  made <= times + 1 /\
  (forall j,
     j <= times ->
     isSuccess (exit (Effect.nthRun op j x)) = true ->
     (forall i, i < j -> isFailure (exit (Effect.nthRun op i x)) = true) ->
     made = j + 1 /\
     exit (Effect.retry op times x) = exit (Effect.nthRun op j x) /\
     after (Effect.retry op times x) = after (Effect.nthRun op j x)) /\
  ((forall i, i <= times -> isFailure (exit (Effect.nthRun op i x)) = true) ->
     made = times + 1 /\
     exists e,
       exit (Effect.nthRun op times x) = Failure e /\
       exit (Effect.retry op times x) = Failure e).
Proof.
  cbv zeta.
  destruct (retry_counted_runs op times x 0)
    as (k & Hk & Hmade & Hexit & Hafter & Hbefore & Hlast).
  rewrite Hmade. split; [lia|]. split.
  - intros j Hj Hsucc Hfailed.
    assert (k = j) as ->.
    { destruct (Nat.lt_trichotomy k j) as [Hlt|[Heq|Hgt]]; [|exact Heq|].
      - assert (k < times) as Hkt by lia.
        specialize (Hlast Hkt). specialize (Hfailed k Hlt). congruence.
      - specialize (Hbefore j Hgt).
        destruct (exit (Effect.nthRun op j x)); discriminate. }
    split; [lia|]. split; assumption.
  - intros Hall.
    assert (k = times) as ->.
    { destruct (Nat.eq_dec k times) as [Heq|Hne]; [exact Heq|].
      assert (k < times) as Hkt by lia.
      specialize (Hlast Hkt). specialize (Hall k Hk). congruence. }
    split; [lia|].
    specialize (Hall times (Nat.le_refl _)).
    destruct (exit (Effect.nthRun op times x)) as [a|e|d|] eqn:Hlastrun;
      try discriminate.
    exists e. split; [reflexivity|]. exact Hexit.
Qed.

(** On the flaky service the loop's [{ times: 3 }] makes four calls: three
    fail, the fourth is answered. *)
Lemma retry_runs_op_at_most_times_plus_one_witness :
  snd (after (Effect.retry (Effect.counted flaky) 3 (0, 0))) = 3 + 1 /\
  exit (Effect.retry flaky 3 0) = Success 3.
Proof.
  destruct (retry_runs_op_at_most_times_plus_one flaky 3 0) as (_ & Hfirst & _).
  destruct (Hfirst 3) as (Hmade & Hexit & _).
  - lia.
  - reflexivity.
  - intros i Hi.
    destruct i as [|[|[|i]]]; try reflexivity. lia.
  - split; [exact Hmade|]. rewrite Hexit. reflexivity.
Defined.

(** C2 as stated fails: with the three of the source, [op] is run a fourth
    time. *)
Lemma retry_runs_op_four_times :
  ~ snd (after (Effect.retry (Effect.counted flaky) 3 (0, 0))) <= 3.
Proof. vm_compute. lia. Qed.

(* ------------------------------------------------------------------ *)
(** ** The loop and its schedules *)

Section SuperVisorFacts.

Context {X E State Msg : Type}.

Variable name : string.
Variable initalState : State.
Variable handler : State -> Msg -> Call (Effect.t X E State).

Local Abbreviation actor := (Actor X E State Msg).
Local Abbreviation body := (loopBody name initalState handler).
Local Abbreviation turn' := (turn name initalState handler).
Local Abbreviation turns' := (turns name initalState handler).
Local Abbreviation run' := (run name initalState handler).
Local Abbreviation drain' := (drain name initalState handler).

Lemma setQueue_same (a : actor) : setQueue (queue a) a = a.
Proof. destruct a; reflexivity. Qed.

Lemma setQueue_twice (q q' : list (ActorMessage Msg)) (a : actor) :
  setQueue q (setQueue q' a) = setQueue q a.
Proof. reflexivity. Qed.

(** The body never touches the mailbox. *)
Lemma loopBody_setQueue (msg : ActorMessage Msg) (q : list (ActorMessage Msg))
    (a : actor) :
  body msg (setQueue q a) = setQueue q (body msg a).
Proof.
  destruct msg as [payload| |]; cbn; try reflexivity.
  destruct (handler (stateRef a) payload) as [op|thrown]; [|reflexivity].
  destruct (exit (Effect.retry op 3 (ext a))); reflexivity.
Qed.

Lemma loopBody_queue (msg : ActorMessage Msg) (a : actor) :
  queue (body msg a) = queue a.
Proof.
  destruct msg as [payload| |]; cbn; try reflexivity.
  destruct (handler (stateRef a) payload) as [op|thrown]; [|reflexivity].
  destruct (exit (Effect.retry op 3 (ext a))); reflexivity.
Qed.

Lemma turn_running (msg : ActorMessage Msg) (rest : list (ActorMessage Msg))
    (a : actor) :
  fiberRef a = Running -> queue a = msg :: rest ->
  turn' a = body msg (setQueue rest a).
Proof.
  intros Hf Hq. unfold turn, actorLoop. rewrite Hf, Hq. reflexivity.
Qed.

Lemma turn_waiting (a : actor) : queue a = [] -> turn' a = a.
Proof.
  intros Hq. unfold turn, actorLoop. rewrite Hq.
  destruct (fiberRef a); reflexivity.
Qed.

Lemma turn_done (ended : Exit E unit) (a : actor) :
  fiberRef a = Done ended -> turn' a = a.
Proof. intros Hf. unfold turn, actorLoop. rewrite Hf. reflexivity. Qed.

Lemma turns_done (ended : Exit E unit) (n : nat) (a : actor) :
  fiberRef a = Done ended -> turns' n a = a.
Proof.
  intros Hf. induction n as [|n IH]; cbn; [reflexivity|].
  rewrite (turn_done ended a Hf). exact IH.
Qed.

Lemma turns_waiting (n : nat) (a : actor) : queue a = [] -> turns' n a = a.
Proof.
  intros Hq. induction n as [|n IH]; cbn; [reflexivity|].
  rewrite (turn_waiting a Hq). exact IH.
Qed.

Lemma turns_add (n m : nat) : forall a : actor,
  turns' (n + m) a = turns' m (turns' n a).
Proof. induction n as [|n IH]; intros a; cbn; [reflexivity|apply IH]. Qed.

(** A call on the handle only lengthens the mailbox. *)
Lemma act_call (x : Action) (msg : ActorMessage Msg) (a : actor) :
  envelopeOf x = Some msg ->
  act name initalState handler a x = setQueue (queue a ++ [msg]) a.
Proof.
  destruct x; cbn; intros H; inversion H; reflexivity.
Qed.

Lemma act_turn (x : Action) (a : actor) :
  envelopeOf (Msg := Msg) x = None ->
  act name initalState handler a x = turn' a.
Proof. destruct x; cbn; intros H; try discriminate; reflexivity. Qed.

(** Once the fiber has ended nothing but the mailbox changes any more:
    whatever is offered piles up behind what was left. *)
Lemma run_done (ended : Exit E unit) (schedule : list Action) :
  forall a : actor,
    fiberRef a = Done ended ->
    run' schedule a = setQueue (queue a ++ offered schedule) a.
Proof.
  induction schedule as [|x schedule IH]; intros a Hf; cbn.
  - rewrite app_nil_r. symmetry. apply setQueue_same.
  - destruct (envelopeOf x) as [msg|] eqn:Hx.
    + rewrite (act_call x msg a Hx).
      unfold run in IH. rewrite IH by exact Hf. cbn.
      rewrite <- app_assoc. reflexivity.
    + rewrite (act_turn x a Hx), (turn_done ended a Hf).
      apply IH. exact Hf.
Qed.

(** Draining a mailbox whose oldest envelope is [msg]. *)
Lemma drain_cons (msg : ActorMessage Msg) (rest : list (ActorMessage Msg))
    (a : actor) :
  fiberRef a = Running ->
  drain' (setQueue (msg :: rest) a) = drain' (setQueue rest (body msg a)).
Proof.
  intros Hf. unfold drain. cbn [queue setQueue length turns].
  rewrite (turn_running msg rest) by (cbn; auto).
  rewrite setQueue_twice, loopBody_setQueue. reflexivity.
Qed.

(** The mailbox is a FIFO and the loop its only reader, so when the loop
    takes its turns does not matter: a schedule ends, once drained, where the
    loop ends when everything offered is in the mailbox from the start. *)
Lemma drain_run (schedule : list Action) : forall a : actor,
  drain' (run' schedule a) = drain' (setQueue (queue a ++ offered schedule) a).
Proof.
  induction schedule as [|x schedule IH]; intros a; cbn.
  - rewrite app_nil_r, setQueue_same. reflexivity.
  - unfold run in IH. rewrite IH.
    destruct (envelopeOf x) as [msg|] eqn:Hx.
    + rewrite (act_call x msg a Hx). cbn. rewrite <- app_assoc. reflexivity.
    + rewrite (act_turn x a Hx).
      destruct (fiberRef a) as [|ended] eqn:Hf.
      * destruct (queue a) as [|msg rest] eqn:Hq.
        -- rewrite (turn_waiting a Hq), Hq. reflexivity.
        -- rewrite (turn_running msg rest a Hf Hq).
           rewrite loopBody_queue, loopBody_setQueue. cbn [queue setQueue].
           rewrite setQueue_twice. cbn [app].
           symmetry. apply drain_cons. exact Hf.
      * rewrite (turn_done ended a Hf). reflexivity.
Qed.

(** Only an ended fiber or an empty mailbox is left by [drain]. *)
Lemma turns_quiet (n : nat) : forall a : actor,
  length (queue a) <= n ->
  actorLoop name initalState handler (turns' n a) = None.
Proof.
  induction n as [|n IH]; intros a Hn;
    destruct (fiberRef a) as [|ended] eqn:Hf;
    try (rewrite (turns_done ended _ a Hf); unfold actorLoop; rewrite Hf;
         reflexivity);
    destruct (queue a) as [|msg rest] eqn:Hq;
    try (rewrite (turns_waiting _ a Hq); unfold actorLoop; rewrite Hf, Hq;
         reflexivity).
  - cbn in Hn. lia.
  - cbn [turns]. rewrite (turn_running msg rest a Hf Hq).
    apply IH. rewrite loopBody_queue. cbn in *. lia.
Qed.

Lemma drain_quiet (a : actor) :
  actorLoop name initalState handler (drain' a) = None.
Proof. apply turns_quiet. lia. Qed.

(** Turns taken on the front of the mailbox do not look at what is queued
    behind it. *)
Lemma turns_app (pre more : list (ActorMessage Msg)) : forall a : actor,
  turns' (length pre) (setQueue (pre ++ more) a)
  = setQueue (queue (drain' (setQueue pre a)) ++ more) (drain' (setQueue pre a)).
Proof.
  unfold drain. cbn [queue setQueue].
  induction pre as [|msg pre IH]; intros a; cbn [length turns app].
  - reflexivity.
  - destruct (fiberRef a) as [|ended] eqn:Hf.
    + rewrite (turn_running msg (pre ++ more)) by (cbn; auto).
      rewrite (turn_running msg pre) by (cbn; auto).
      rewrite !setQueue_twice, !loopBody_setQueue. apply IH.
    + rewrite !(turn_done ended) by (cbn; auto).
      rewrite !(turns_done ended) by (cbn; auto). reflexivity.
Qed.

(** A mailbox of payloads is worked off like a fold from the left that ends
    at the first payload whose application does not succeed. *)
Lemma drain_payloads (payloads : list Msg) : forall a : actor,
  fiberRef a = Running ->
  stateRef (drain' (setQueue (map Message payloads) a))
  = foldUntilFailure handler (stateRef a) payloads (ext a).
Proof.
  induction payloads as [|m payloads IH]; intros a Hf; [reflexivity|].
  cbn [map foldUntilFailure]. rewrite drain_cons by exact Hf.
  unfold loopBody. cbn [logLine absorb stateRef ext after Console.log].
  destruct (handler (stateRef a) m) as [op|thrown].
  - destruct (exit (Effect.retry op 3 (ext a))) as [newState|e|d|] eqn:Hexit.
    + rewrite IH by (cbn; exact Hf). reflexivity.
    + unfold drain. rewrite (turns_done (Failure e)); reflexivity.
    + unfold drain. rewrite (turns_done (Die d)); reflexivity.
    + unfold drain. rewrite (turns_done Interrupt); reflexivity.
  - unfold drain. rewrite (turns_done (Success tt)); reflexivity.
Qed.

(** C1 (as amended).  When the handler's effect fails on its first run and
    on each of the three retries, the turn of the loop leaves the state cell
    as it was and the loop does not go on: it is no longer running, the
    envelopes behind stay in the mailbox, and whatever is done to the actor
    afterwards neither changes the state nor takes an envelope out. *)
Theorem retry_exhaustion_ends_the_loop
    (a : actor) (payload : Msg) (rest : list (ActorMessage Msg))
    (op : Effect.t X E State) :
  fiberRef a = Running ->
  queue a = Message payload :: rest ->
  handler (stateRef a) payload = Returns op ->
  (forall j, j <= 3 -> isFailure (exit (Effect.nthRun op j (ext a))) = true) ->
  getState (turn' a) = getState a /\
  fiberRef (turn' a) <> Running /\
  queue (turn' a) = rest /\
  forall schedule,
    getState (run' schedule (turn' a)) = getState a /\
    queue (run' schedule (turn' a)) = rest ++ offered schedule /\
    fiberRef (run' schedule (turn' a)) <> Running.
Proof.
  intros Hf Hq Hhandler Hall.
  destruct (retry_counted_runs op 3 (ext a) 0)
    as (k & Hk & _ & Hexit & _ & _ & Hlast).
  assert (k = 3) as ->.
  { destruct (Nat.eq_dec k 3) as [Heq|Hne]; [exact Heq|].
    assert (k < 3) as Hlt by lia.
    specialize (Hlast Hlt). specialize (Hall k Hk). congruence. }
  specialize (Hall 3 (Nat.le_refl _)).
  destruct (exit (Effect.nthRun op 3 (ext a))) as [s|e|d|] eqn:Hrun;
    try discriminate.
  assert (turn' a
          = finish (Failure e)
              (absorb (Effect.retry op 3 (ext a))
                 (logLine "Message Received" (setQueue rest a)))) as Hturn.
  { rewrite (turn_running (Message payload) rest a Hf Hq).
    unfold loopBody. cbn [logLine absorb setQueue stateRef ext after Console.log].
    rewrite Hhandler, Hexit. reflexivity. }
  rewrite Hturn.
  split; [reflexivity|]. split; [discriminate|]. split; [reflexivity|].
  intros schedule. rewrite (run_done (Failure e)) by reflexivity.
  split; [reflexivity|]. split; [reflexivity|]. discriminate.
Qed.

(** C3 (as amended).  Processing [Stop] ends the loop but closes nothing:
    every later call of [send], [stop] or [restart] is answered [true], and
    its envelope is put behind those left in the mailbox, which no turn of
    the loop takes out any more. *)
Theorem mailbox_stays_open_after_stop
    (a : actor) (rest : list (ActorMessage Msg)) :
  fiberRef a = Running ->
  queue a = Stop :: rest ->
  fiberRef (turn' a) = Done (Success tt) /\
  forall schedule msg,
    let later := run' schedule (turn' a) in
    fst (enqueue msg later) = true /\
    queue (snd (enqueue msg later)) = rest ++ offered schedule ++ [msg] /\
    actorLoop name initalState handler (snd (enqueue msg later)) = None.
Proof.
  intros Hf Hq. rewrite (turn_running Stop rest a Hf Hq).
  split; [reflexivity|]. intros schedule msg. cbv zeta.
  rewrite (run_done (Success tt)) by reflexivity.
  cbn. rewrite <- app_assoc. auto.
Qed.

(** C4 (as amended).  Whatever the order of the calls of [send] and of the
    turns of the loop, once the mailbox of a freshly created actor has been
    worked off the state is the left fold of the handler over the payloads
    sent before the first one whose application fails after all retries;
    that payload leaves the state as it is and none behind it is applied. *)
Theorem final_state_is_fold_until_failure
    (x : X) (payloads : list Msg) (schedule : list Action) :
  offered schedule = map Message payloads ->
  getState (drain' (run' schedule (createSuperVisor name initalState x)))
  = foldUntilFailure handler initalState payloads x.
Proof.
  intros Hsent. rewrite drain_run. unfold getState.
  cbn [createSuperVisor logLine absorb queue Queue.unbounded app].
  rewrite Hsent.
  apply (drain_payloads payloads
           (createSuperVisor name initalState x)).
  reflexivity.
Qed.

(** C5.  A [Restart] envelope puts the value given as [initalState] back
    into the state cell, whatever the actor went through before, and the
    loop goes on running. *)
Theorem restart_resets_to_initial_state
    (a : actor) (rest : list (ActorMessage Msg)) :
  fiberRef a = Running ->
  queue a = Restart :: rest ->
  getState (turn' a) = initalState /\
  fiberRef (turn' a) = Running /\
  queue (turn' a) = rest /\
  ext (turn' a) = ext a.
Proof.
  intros Hf Hq. rewrite (turn_running Restart rest a Hf Hq).
  cbn. auto.
Qed.

(** On a loop that comes through a mailbox of payloads still running, no
    payload failed: stopping at the first failure and skipping failures are
    then the same fold, the fold of the handler over all the payloads. *)
Lemma drain_payloads_all_applied (payloads : list Msg) : forall a : actor,
  fiberRef a = Running ->
  fiberRef (drain' (setQueue (map Message payloads) a)) = Running ->
  foldUntilFailure handler (stateRef a) payloads (ext a)
  = foldSkippingFailures handler (stateRef a) payloads (ext a).
Proof.
  induction payloads as [|m payloads IH]; intros a Hf Hend; [reflexivity|].
  cbn [map foldUntilFailure foldSkippingFailures] in *.
  rewrite drain_cons in Hend by exact Hf.
  unfold loopBody in Hend.
  cbn [logLine absorb stateRef ext after Console.log] in Hend.
  destruct (handler (stateRef a) m) as [op|thrown].
  - destruct (exit (Effect.retry op 3 (ext a))) as [newState|e|d|] eqn:Hexit.
    + apply (IH (setState newState
                   (absorb (Effect.retry op 3 (ext a))
                      (logLine "Message Received" a)))); [exact Hf|exact Hend].
    + unfold drain in Hend. rewrite (turns_done (Failure e)) in Hend
        by reflexivity. discriminate.
    + unfold drain in Hend. rewrite (turns_done (Die d)) in Hend
        by reflexivity. discriminate.
    + unfold drain in Hend. rewrite (turns_done Interrupt) in Hend
        by reflexivity. discriminate.
  - unfold drain in Hend. rewrite (turns_done (Success tt)) in Hend
      by reflexivity. discriminate.
Qed.

(** C6 (as amended).  [Stop] waits for its turn and nothing overtakes it.
    Provided no earlier envelope has ended the loop, so that the loop is
    still running when the turn of [Stop] comes, exactly the envelopes
    queued before [Stop] have been taken and worked off by then (payloads
    have all been applied by the handler); the loop then ends, and from
    there on no call and no turn changes what [getState] returns. *)
Theorem stop_is_processed_in_turn
    (a : actor) (pre post : list (ActorMessage Msg)) :
  fiberRef a = Running ->
  queue a = pre ++ Stop :: post ->
  fiberRef (turns' (length pre) a) = Running ->
  let before := drain' (setQueue pre a) in
  let reached := turns' (length pre) a in
  queue before = [] /\
  getState reached = getState before /\
  (forall payloads,
     pre = map Message payloads ->
     getState reached
     = foldSkippingFailures handler (stateRef a) payloads (ext a)) /\
  queue reached = Stop :: post /\
  fiberRef (turn' reached) = Done (Success tt) /\
  getState (drain' a) = getState before /\
  forall schedule,
    getState (run' schedule (turn' reached)) = getState before /\
    fiberRef (run' schedule (turn' reached)) = Done (Success tt).
Proof.
  intros Hf Hq. cbv zeta.
  assert (turns' (length pre) a
          = setQueue (queue (drain' (setQueue pre a)) ++ Stop :: post)
              (drain' (setQueue pre a))) as Hreached.
  { rewrite <- (turns_app pre (Stop :: post) a), <- Hq, setQueue_same.
    reflexivity. }
  assert (drain' a = turns' (S (length post)) (turns' (length pre) a)) as Hdrain.
  { unfold drain. rewrite Hq, length_app. cbn [length]. apply turns_add. }
  rewrite Hdrain, Hreached.
  cbn [fiberRef setQueue]. intros Hrun.
  assert (queue (drain' (setQueue pre a)) = []) as Hempty.
  { pose proof (drain_quiet (setQueue pre a)) as Hquiet.
    unfold actorLoop in Hquiet. rewrite Hrun in Hquiet.
    destruct (queue (drain' (setQueue pre a))); [reflexivity|discriminate]. }
  rewrite Hempty. cbn [app turns].
  rewrite (turn_running Stop post) by (cbn; auto).
  split; [reflexivity|]. split; [reflexivity|]. split.
  { intros payloads Hpre. subst pre. cbn [stateRef setQueue].
    rewrite <- (drain_payloads_all_applied payloads a Hf Hrun).
    apply drain_payloads. exact Hf. }
  split; [reflexivity|]. split; [reflexivity|]. split.
  { rewrite (turns_done (Success tt)) by reflexivity. reflexivity. }
  intros schedule.
  rewrite (run_done (Success tt)) by reflexivity. split; reflexivity.
Qed.

End SuperVisorFacts.

(* ------------------------------------------------------------------ *)
(** ** The loop on the probe handler *)

Lemma retry_exhaustion_ends_the_loop_witness :
  let a := probeRun [CallSend AlwaysFail; CallSend Increment] probeActor in
  getState (probeTurn a) = 0 /\
  fiberRef (probeTurn a) <> Running /\
  queue (probeTurn a) = [Message Increment] /\
  getState (probeRun [Turn; CallSend Increment; Turn] (probeTurn a)) = 0.
Proof.
  cbv zeta.
  destruct (retry_exhaustion_ends_the_loop "probe" 0 probeHandler
              (probeRun [CallSend AlwaysFail; CallSend Increment] probeActor)
              AlwaysFail [Message Increment] (Effect.fail "boom"%string))
    as (Hstate & Hfiber & Hqueue & Hlater).
  - reflexivity.
  - reflexivity.
  - reflexivity.
  - intros j Hj. destruct j as [|[|[|[|j]]]]; try reflexivity. lia.
  - split; [exact Hstate|]. split; [exact Hfiber|].
    split; [exact Hqueue|].
    exact (proj1 (Hlater [Turn; CallSend Increment; Turn])).
Defined.

(** C1 as stated fails: a payload that fails on all four runs, and likewise
    one that crashes once, ends the loop, and the [Increment] sent after it
    is left in the mailbox for good. *)
Lemma loop_does_not_survive_retry_exhaustion :
  let failing := probeRun [CallSend AlwaysFail; CallSend Increment] probeActor in
  let crashing := probeRun [CallSend Crash; CallSend Increment] probeActor in
  forallb (fun j => isFailure (exit (Effect.nthRun
                                       (Effect.fail (A := nat) "boom"%string) j tt)))
          [0; 1; 2; 3] = true /\
  fiberRef (probeTurn failing) <> Running /\
  queue (probeDrain failing) = [Message Increment] /\
  getState (probeDrain failing) = 0 /\
  fiberRef (probeTurn crashing) <> Running /\
  queue (probeDrain crashing) = [Message Increment] /\
  getState (probeDrain crashing) = 0.
Proof. vm_compute. repeat split; discriminate. Qed.

(** The one error the [catch] clause sees is a value thrown by the call of
    the handler itself: it is written to the console once, and the loop is
    left all the same. *)
Example thrown_value_is_caught_outside_the_loop :
  let a := probeDrain (probeRun [CallSend ThrowAtCall; CallSend Increment]
                         probeActor) in
  fiberRef a = Done (Success tt) /\
  getState a = 0 /\
  queue a = [Message Increment] /\
  console a = [nl ++ " [probe] Actor started and listing";
               "Message Received";
               "[probe] Error thrown"]%string.
Proof. vm_compute. repeat split. Qed.

Lemma mailbox_stays_open_after_stop_witness :
  let a := snd (stop probeActor) in
  fiberRef a = Running /\
  queue a = [Stop] /\
  fst (send Increment (probeTurn a)) = true /\
  queue (snd (send Increment (probeTurn a))) = [Message Increment].
Proof.
  cbv zeta.
  destruct (mailbox_stays_open_after_stop "probe" 0 probeHandler
              (snd (stop probeActor)) [])
    as (_ & Hlater); [reflexivity|reflexivity|].
  destruct (Hlater [] (Message Increment)) as (Haccepted & Hqueue & _).
  split; [reflexivity|]. split; [reflexivity|].
  split; [exact Haccepted|exact Hqueue].
Defined.

(** C3 as stated fails: after [Stop] has been processed, [send], [stop] and
    [restart] are still answered [true] and their envelopes are queued. *)
Lemma enqueue_after_stop_is_accepted :
  let stopped := probeRun [CallStop; Turn] probeActor in
  fiberRef stopped = Done (Success tt) /\
  fst (send Increment stopped) <> false /\
  fst (stop stopped) <> false /\
  fst (restart stopped) <> false /\
  queue (snd (send Increment stopped)) = [Message Increment].
Proof. vm_compute. repeat split; discriminate. Qed.

Lemma final_state_is_fold_until_failure_witness :
  let schedule :=
    [CallSend Increment; Turn; CallSend AlwaysFail; CallSend Increment;
     Turn; Turn] in
  offered schedule = map Message [Increment; AlwaysFail; Increment] /\
  getState (probeDrain (probeRun schedule probeActor)) = 1.
Proof.
  cbv zeta. split; [reflexivity|].
  exact (final_state_is_fold_until_failure "probe" 0 probeHandler tt
           [Increment; AlwaysFail; Increment]
           [CallSend Increment; Turn; CallSend AlwaysFail; CallSend Increment;
            Turn; Turn] eq_refl).
Defined.

(** C4 as stated fails: the [Increment] sent after a payload that fails on
    every run is a payload that would succeed, yet it is never applied. *)
Lemma final_state_is_not_the_skipping_fold :
  getState (probeDrain (probeRun [CallSend AlwaysFail; CallSend Increment]
                          probeActor))
  <> foldSkippingFailures probeHandler 0 [AlwaysFail; Increment] tt.
Proof. vm_compute. discriminate. Qed.

Lemma restart_resets_to_initial_state_witness :
  let a := probeRun [CallSend Increment; Turn; CallRestart] probeActor in
  getState a = 1 /\ getState (probeTurn a) = 0 /\ fiberRef (probeTurn a) = Running.
Proof.
  cbv zeta. split; [reflexivity|].
  destruct (restart_resets_to_initial_state "probe" 0 probeHandler
              (probeRun [CallSend Increment; Turn; CallRestart] probeActor) [])
    as (Hstate & Hfiber & _); [reflexivity|reflexivity|].
  split; [exact Hstate|exact Hfiber].
Defined.

Lemma stop_is_processed_in_turn_witness :
  let a := probeRun [CallSend Increment; CallSend Increment; CallStop;
                     CallSend Increment] probeActor in
  fiberRef (turns "probe" 0 probeHandler 2 a) = Running /\
  getState (probeDrain a) = 2 /\
  getState (probeRun [Turn; CallRestart; Turn; CallSend Increment; Turn]
              (probeTurn (turns "probe" 0 probeHandler 2 a))) = 2.
Proof.
  cbv zeta.
  destruct (stop_is_processed_in_turn "probe" 0 probeHandler
              (probeRun [CallSend Increment; CallSend Increment; CallStop;
                         CallSend Increment] probeActor)
              [Message Increment; Message Increment] [Message Increment])
    as (_ & _ & _ & _ & _ & Hend & Hlater);
    [reflexivity|reflexivity|reflexivity|].
  split; [reflexivity|]. split; [exact Hend|].
  exact (proj1 (Hlater [Turn; CallRestart; Turn; CallSend Increment; Turn])).
Defined.

(** C6 as stated fails: a payload that crashes ends the loop before the turn
    of [Stop] comes, and the [Increment] queued before [Stop] is never
    applied; [Stop] itself is never taken. *)
Lemma envelope_before_stop_is_not_applied :
  let a := probeRun [CallSend Crash; CallSend Increment; CallStop] probeActor in
  queue a = [Message Crash; Message Increment; Stop] /\
  getState (probeDrain a) = 0 /\
  queue (probeDrain a) = [Message Increment; Stop] /\
  fiberRef (probeDrain a) <> Running /\
  foldSkippingFailures probeHandler 0 [Crash; Increment] tt = 1.
Proof. vm_compute. repeat split; discriminate. Qed.

(* ------------------------------------------------------------------ *)
(** ** The bank account handler under the loop *)

Local Open Scope Z_scope.

(** C7.  The demo scenario on an account opened with 1000: the deposit of
    500 gives 1500, the withdrawal of 200 gives 1300, the withdrawal of 5000
    is refused by the handler itself, which hands back the state it was
    given after a single run and without any failure of the loop; after
    [stop] nothing that is sent is applied and [getState] stays at 1300. *)
Theorem bank_scenario (clock : nat -> Z) :
  let opening := mkBankAccount 1000 [] in
  let step := run "Alice" opening (bankAccountHandler (E := Empty_set)) in
  let alice := createSuperVisor "Alice" opening (mkClock clock 0) in
  let afterDeposit := step [CallSend (deposit 500); Turn] alice in
  let afterWithdraw := step [CallSend (withdraw 200); Turn] afterDeposit in
  let afterRefusal := step [CallSend (withdraw 5000); Turn] afterWithdraw in
  let stopped := step [CallStop; Turn] afterRefusal in
  let later :=
    step [CallSend (deposit 100); Turn; CallSend (withdraw 50); Turn] stopped in
  balance (getState afterDeposit) = 1500 /\
  balance (getState afterWithdraw) = 1300 /\
  getState afterRefusal = getState afterWithdraw /\
  fiberRef afterRefusal = Running /\
  taken (ext afterRefusal) = S (taken (ext afterWithdraw)) /\
  console afterRefusal
    = console afterWithdraw
      ++ ["Message Received";
          nl ++ "💸 WITHDRAWAL: $5000";
          "   Current balance: $1300";
          "   ❌ REJECTED: Insufficient funds!";
          "   Need: $3700 more"]%string /\
  fiberRef stopped = Done (Success tt) /\
  getState later = getState stopped /\
  balance (getState later) = 1300.
Proof. vm_compute. repeat split. Qed.

(** Sequencing after a line of output or a reading of the clock. *)

Lemma exit_after_log {X E B} (line : string) (k : unit -> Effect.t X E B) (x : X) :
  exit (Effect.flatMap (Console.log line) k x) = exit (k tt x) /\
  after (Effect.flatMap (Console.log line) k x) = after (k tt x).
Proof.
  unfold Effect.flatMap, Console.log. cbn [exit after output].
  split; reflexivity.
Qed.

Lemma exit_after_now {E B} (k : Z -> Effect.t Clock E B) (c : Clock) :
  exit (Effect.flatMap Date.now k c)
    = exit (k (readings c (taken c)) (mkClock (readings c) (S (taken c)))) /\
  after (Effect.flatMap Date.now k c)
    = after (k (readings c (taken c)) (mkClock (readings c) (S (taken c)))).
Proof.
  unfold Effect.flatMap, Date.now. cbn [exit after output].
  split; reflexivity.
Qed.

Ltac step_effect :=
  repeat (first
    [ rewrite (proj1 (exit_after_now _ _))
    | rewrite (proj2 (exit_after_now _ _))
    | rewrite (proj1 (exit_after_log _ _ _))
    | rewrite (proj2 (exit_after_log _ _ _)) ];
    cbv beta zeta).

(** One run of the handler's effect: it reads the clock once and succeeds
    with the account computed from the state it was called with. *)
Lemma bankAccountHandler_run {N : Number}
    (E : Type) (state : BankAccount) (message : BankMessage) (c : Clock) :
  exists op : Effect.t Clock E BankAccount,
    bankAccountHandler state message = Returns op /\
    after (op c) = mkClock (readings c) (S (taken c)) /\
    exit (op c)
    = Success
        match message with
        | deposit amount =>
            mkBankAccount (balance state + amount)%number
              (transactions state
               ++ [mkTransaction "deposit" amount (readings c (taken c))])
        | withdraw amount =>
            if (balance state <? amount)%number then state
            else
              mkBankAccount (balance state - amount)%number
                (transactions state
                 ++ [mkTransaction "withdraw" amount (readings c (taken c))])
        | transfer to amount =>
            if (balance state <? amount)%number then state
            else
              mkBankAccount (balance state - amount)%number
                (transactions state
                 ++ [mkTransaction "transfer" amount (readings c (taken c))])
        end.
Proof.
  eexists. split; [reflexivity|].
  destruct message as [amount|amount|to amount]; step_effect;
    try destruct (less (balance state) amount); step_effect;
    split; reflexivity.
Qed.

(** C8.  The effect returned by the bank handler succeeds on its first run,
    for every state, message and clock; [retry] therefore makes no second
    run, and a turn of the loop on a bank message stores the new state and
    leaves the loop running. *)
Theorem bank_message_is_applied_on_first_run {N : Number}
    (E : Type) (name : string) (initalState : BankAccount)
    (a : Actor Clock E BankAccount BankMessage)
    (message : BankMessage) (rest : list (ActorMessage BankMessage)) :
  fiberRef a = Running ->
  queue a = Message message :: rest ->
  exists (op : Effect.t Clock E BankAccount) (newState : BankAccount),
    bankAccountHandler (stateRef a) message = Returns op /\
    exit (op (ext a)) = Success newState /\
    Effect.retry op 3 (ext a) = op (ext a) /\
    snd (after (Effect.retry (Effect.counted op) 3 (ext a, 0%nat))) = 1%nat /\
    fiberRef (turn name initalState bankAccountHandler a) = Running /\
    getState (turn name initalState bankAccountHandler a) = newState.
Proof.
  intros Hf Hq.
  destruct (bankAccountHandler_run E (stateRef a) message (ext a))
    as (op & Hcall & _ & Hexit).
  destruct (retry_first_success op 3 (ext a) _ Hexit) as (Hretry & Hruns).
  exists op. eexists.
  split; [exact Hcall|]. split; [exact Hexit|]. split; [exact Hretry|].
  split; [apply Hruns|].
  rewrite (turn_running name initalState bankAccountHandler
             (Message message) rest a Hf Hq).
  unfold loopBody, logLine, absorb, setQueue, Console.log.
  cbn [stateRef ext fiberRef queue console after output exit].
  rewrite Hcall, Hretry, Hexit.
  split; [exact Hf|reflexivity].
Qed.

Lemma bank_message_is_applied_on_first_run_witness :
  let a := snd (send (withdraw 5000)
                  (createSuperVisor (E := Empty_set) "Alice"
                     (mkBankAccount 1000 []) (mkClock (fun _ => 0) 0))) in
  fiberRef a = Running /\
  queue a = [Message (withdraw 5000)] /\
  fiberRef (turn "Alice" (mkBankAccount 1000 []) bankAccountHandler a) = Running.
Proof.
  cbv zeta. split; [reflexivity|]. split; [reflexivity|].
  destruct (bank_message_is_applied_on_first_run Empty_set "Alice"
              (mkBankAccount 1000 [])
              (snd (send (withdraw 5000)
                      (createSuperVisor (E := Empty_set) "Alice"
                         (mkBankAccount 1000 []) (mkClock (fun _ => 0) 0))))
              (withdraw 5000) [])
    as (op & newState & _ & _ & _ & _ & Hfiber & _);
    [reflexivity|reflexivity|exact Hfiber].
Defined.

(** On the integers, the total of a history of the handler's records is the
    ledger equation of plain sums. *)
Lemma accountTotal_on_integers (history : list Transaction) :
  forall opening : Z,
    Forall ofKnownKind history ->
    accountTotal opening history
    = opening + sumOf "deposit" history - sumOf "withdraw" history
      - sumOf "transfer" history.
Proof.
  unfold accountTotal.
  induction history as [|r history IH]; intros opening Hkinds;
    cbn [fold_left sumOf]; [lia|].
  inversion Hkinds as [|? ? Hkind Hrest]; subst.
  rewrite IH by exact Hrest.
  cbn [num plus minus IntegerNumber].
  destruct Hkind as [Hk|[Hk|Hk]]; rewrite Hk; cbn; lia.
Qed.

(** C9 (as amended).  Every application of the bank handler keeps the
    ledger as the program computes it: the balance is what the recorded
    transactions give when they are replayed in order from the opening
    balance, each deposit added and each withdrawal or transfer subtracted
    in the arithmetic of the program (float64, or any other).  A deposit,
    and a withdrawal or transfer that the balance covers, adds exactly one
    record of its kind and amount and replaces the balance by its sum or
    difference with that amount in that arithmetic; a withdrawal or
    transfer of more than the balance hands back the very state it was
    given, records included. *)
Theorem bankAccountHandler_keeps_the_ledger {N : Number}
    (E : Type) (opening : num) (state : BankAccount) (message : BankMessage)
    (c : Clock) :
  accountTotal opening (transactions state) = balance state ->
  exists (op : Effect.t Clock E BankAccount) (newState : BankAccount),
    bankAccountHandler state message = Returns op /\
    exit (op c) = Success newState /\
    accountTotal opening (transactions newState) = balance newState /\
    match message with
    | deposit amount =>
        newState
        = mkBankAccount (balance state + amount)%number
            (transactions state
             ++ [mkTransaction "deposit" amount (readings c (taken c))])
    | withdraw amount =>
        if (balance state <? amount)%number then newState = state
        else
          newState
          = mkBankAccount (balance state - amount)%number
              (transactions state
               ++ [mkTransaction "withdraw" amount (readings c (taken c))])
    | transfer to amount =>
        if (balance state <? amount)%number then newState = state
        else
          newState
          = mkBankAccount (balance state - amount)%number
              (transactions state
               ++ [mkTransaction "transfer" amount (readings c (taken c))])
    end.
Proof.
  intros Hledger.
  destruct (bankAccountHandler_run E state message c)
    as (op & Hcall & _ & Hexit).
  exists op. eexists. split; [exact Hcall|]. split; [exact Hexit|].
  unfold accountTotal in *.
  destruct message as [amount|amount|to amount];
    try destruct (less (balance state) amount);
    (split; [|reflexivity]); try exact Hledger;
    cbn [balance transactions]; rewrite fold_left_app; cbn [fold_left];
    rewrite Hledger; reflexivity.
Qed.

(** In float64, on Alice's account after her deposit of 500. *)
Lemma bankAccountHandler_keeps_the_ledger_witness :
  let state :=
    mkBankAccount (N := Float64Integers) 1500%float
      [mkTransaction (N := Float64Integers) "deposit" 500%float 7%Z] in
  accountTotal (N := Float64Integers) 1000%float (transactions state) = balance state /\
  exists (op : Effect.t Clock Empty_set BankAccount) (newState : BankAccount),
    bankAccountHandler state (withdraw (N := Float64Integers) 200%float) = Returns op /\
    exit (op (mkClock (fun _ => 8%Z) 0)) = Success newState /\
    accountTotal (N := Float64Integers) 1000%float (transactions newState) = balance newState /\
    balance newState = 1300%float.
Proof.
  cbv zeta.
  assert (accountTotal (N := Float64Integers) 1000%float
            [mkTransaction (N := Float64Integers) "deposit" 500%float 7%Z]
          = 1500%float)
    as Hledger by reflexivity.
  split; [exact Hledger|].
  destruct (bankAccountHandler_keeps_the_ledger (N := Float64Integers)
              Empty_set 1000%float
              (mkBankAccount 1500%float [mkTransaction (N := Float64Integers) "deposit" 500%float 7%Z])
              (withdraw (N := Float64Integers) 200%float) (mkClock (fun _ => 8%Z) 0) Hledger)
    as (op & newState & Hcall & Hexit & Hkept & Hshape).
  exists op, newState.
  split; [exact Hcall|]. split; [exact Hexit|]. split; [exact Hkept|].
  cbn [less plus minus Float64Integers balance transactions] in Hshape.
  rewrite Hshape. reflexivity.
Defined.

(** C9 as stated fails on float64: on a balance of 2^53 a deposit of 1 is
    carried out and recorded, and the balance stays at 2^53; it has not
    moved by the amount, and it is no longer the opening balance plus the
    recorded deposits. *)
Lemma deposit_beyond_2_53_is_lost :
  let state :=
    mkBankAccount (N := Float64Integers) 9007199254740992%float [] in
  exists (op : Effect.t Clock Empty_set BankAccount) (newState : BankAccount),
    bankAccountHandler state (deposit (N := Float64Integers) 1%float) = Returns op /\
    exit (op (mkClock (fun _ => 0%Z) 0)) = Success newState /\
    transactions newState = [mkTransaction (N := Float64Integers) "deposit" 1%float 0%Z] /\
    integerValue (balance state) = 2 ^ 53 /\
    integerValue 1%float = 1 /\
    integerValue (balance newState) = 2 ^ 53 /\
    integerValue (balance newState)
    <> integerValue (balance state) + integerValue 1%float.
Proof.
  cbv zeta.
  destruct (bankAccountHandler_run (N := Float64Integers) Empty_set
              (mkBankAccount 9007199254740992%float []) (deposit (N := Float64Integers) 1%float)
              (mkClock (fun _ => 0%Z) 0))
    as (op & Hcall & _ & Hexit).
  exists op. eexists. split; [exact Hcall|]. split; [exact Hexit|].
  split; [reflexivity|].
  cbn [balance plus minus Float64Integers].
  vm_compute. repeat split; discriminate.
Qed.

(** The test for insufficient funds lets a negative amount through on every
    float64 balance that is not negative. *)
Lemma negative_amount_passes_the_test (balance amount : float) :
  (0 <=? balance)%float = true ->
  (amount <? 0)%float = true ->
  (balance <? amount)%float = false.
Proof.
  rewrite !leb_spec, !ltb_spec.
  destruct (Prim2SF balance) as [[|]|[|]| |[|] mb eb],
           (Prim2SF amount) as [[|]|[|]| |[|] ma ea];
    cbn; try discriminate; try reflexivity.
Qed.

(** C10 (as amended).  The handler does not look at the sign of an amount.
    On float64, a deposit of a negative amount succeeds, gives the float64
    sum balance + amount, and is recorded; on a balance that is not
    negative, a withdrawal of a negative amount passes the test for
    insufficient funds, gives the float64 difference balance - amount, and
    is recorded. *)
Theorem negative_amounts_are_applied
    (toString : float -> string) (E : Type)
    (state : BankAccount (N := Float64 toString)) (amount : float)
    (c : Clock) :
  (amount <? 0)%float = true ->
  (exists (op : Effect.t Clock E BankAccount) (newState : BankAccount),
     bankAccountHandler state (deposit (N := Float64 toString) amount) = Returns op /\
     exit (op c) = Success newState /\
     balance newState = (balance state + amount)%float /\
     transactions newState
     = transactions state
       ++ [mkTransaction (N := Float64 toString) "deposit" amount (readings c (taken c))]) /\
  ((0 <=? balance state)%float = true ->
   exists (op : Effect.t Clock E BankAccount) (newState : BankAccount),
     bankAccountHandler state (withdraw (N := Float64 toString) amount) = Returns op /\
     exit (op c) = Success newState /\
     balance newState = (balance state - amount)%float /\
     transactions newState
     = transactions state
       ++ [mkTransaction (N := Float64 toString) "withdraw" amount (readings c (taken c))]).
Proof.
  intros Hneg. split.
  - destruct (bankAccountHandler_run (N := Float64 toString) E state
                (deposit (N := Float64 toString) amount) c) as (op & Hcall & _ & Hexit).
    exists op. eexists. split; [exact Hcall|]. split; [exact Hexit|].
    split; reflexivity.
  - intros Hbalance.
    destruct (bankAccountHandler_run (N := Float64 toString) E state
                (withdraw (N := Float64 toString) amount) c) as (op & Hcall & _ & Hexit).
    cbn [less Float64] in Hexit.
    rewrite (negative_amount_passes_the_test _ _ Hbalance Hneg) in Hexit.
    exists op. eexists. split; [exact Hcall|]. split; [exact Hexit|].
    split; reflexivity.
Qed.

(** A deposit of -500 on a balance of 100 leaves -400; a withdrawal of -500
    leaves 600. *)
Lemma negative_amounts_are_applied_witness :
  let state := mkBankAccount (N := Float64Integers) 100%float [] in
  let c := mkClock (fun _ => 0%Z) 0 in
  (-500 <? 0)%float = true /\
  (0 <=? 100)%float = true /\
  (exists (op : Effect.t Clock Empty_set BankAccount) (newState : BankAccount),
     bankAccountHandler state (deposit (N := Float64Integers) (-500)%float) = Returns op /\
     exit (op c) = Success newState /\
     balance newState = (-400)%float) /\
  (exists (op : Effect.t Clock Empty_set BankAccount) (newState : BankAccount),
     bankAccountHandler state (withdraw (N := Float64Integers) (-500)%float) = Returns op /\
     exit (op c) = Success newState /\
     balance newState = 600%float).
Proof.
  cbv zeta.
  assert ((-500 <? 0)%float = true) as Hneg by (vm_compute; reflexivity).
  assert ((0 <=? 100)%float = true) as Hbalance by (vm_compute; reflexivity).
  split; [exact Hneg|]. split; [exact Hbalance|].
  destruct (negative_amounts_are_applied integerText Empty_set
              (mkBankAccount (N := Float64Integers) 100%float []) (-500)%float
              (mkClock (fun _ => 0%Z) 0) Hneg)
    as ((op & newState & Hcall & Hexit & Hsum & _) & Hwithdraw).
  split.
  - exists op, newState. split; [exact Hcall|]. split; [exact Hexit|].
    exact (eq_trans Hsum eq_refl).
  - destruct (Hwithdraw Hbalance)
      as (op' & newState' & Hcall' & Hexit' & Hdiff & _).
    exists op', newState'. split; [exact Hcall'|]. split; [exact Hexit'|].
    exact (eq_trans Hdiff eq_refl).
Defined.

(** C10 as stated fails on float64: on a balance of 2^53 a withdrawal of -1
    passes the test and is recorded, and the balance stays at 2^53; it has
    not risen by the magnitude of the amount. *)
Lemma negative_withdrawal_beyond_2_53_is_lost :
  let state :=
    mkBankAccount (N := Float64Integers) 9007199254740992%float [] in
  exists (op : Effect.t Clock Empty_set BankAccount) (newState : BankAccount),
    bankAccountHandler state (withdraw (N := Float64Integers) (-1)%float) = Returns op /\
    exit (op (mkClock (fun _ => 0%Z) 0)) = Success newState /\
    transactions newState = [mkTransaction (N := Float64Integers) "withdraw" (-1)%float 0%Z] /\
    integerValue (balance state) = 2 ^ 53 /\
    integerValue (-1)%float = -1 /\
    integerValue (balance newState) = 2 ^ 53 /\
    integerValue (balance newState)
    <> integerValue (balance state) + Z.abs (integerValue (-1)%float).
Proof.
  cbv zeta.
  destruct (bankAccountHandler_run (N := Float64Integers) Empty_set
              (mkBankAccount 9007199254740992%float []) (withdraw (N := Float64Integers) (-1)%float)
              (mkClock (fun _ => 0%Z) 0))
    as (op & Hcall & _ & Hexit).
  exists op. eexists. split; [exact Hcall|]. split; [exact Hexit|].
  split; [reflexivity|].
  cbn [balance plus minus Float64Integers].
  vm_compute. repeat split; discriminate.
Qed.

Local Close Scope Z_scope.

(* ------------------------------------------------------------------ *)
(** ** More about the loop of [createSuperVisor] *)

(** Every run that [retry] makes is a run of [op] from some external
    state. *)
Lemma nthRun_is_a_run {X E A} (op : Effect.t X E A) (k : nat) :
  forall x, exists x', Effect.nthRun op k x = op x'.
Proof.
  induction k as [|k IH]; intros x; cbn [Effect.nthRun].
  - exists x. reflexivity.
  - apply IH.
Qed.

(** The first run that succeeds, if it comes within the budget, is where
    [retry] stops. *)
Lemma retry_stops_at_first_success {X E A} (op : Effect.t X E A)
    (times k : nat) (x : X) (a : A) :
  k <= times ->
  (forall j, j < k -> isFailure (exit (Effect.nthRun op j x)) = true) ->
  exit (Effect.nthRun op k x) = Success a ->
  exit (Effect.retry op times x) = Success a /\
  after (Effect.retry op times x) = after (Effect.nthRun op k x).
Proof.
  intros Hk Hfailed Hsucc.
  destruct (retry_counted_runs op times x 0)
    as (k' & Hk' & _ & Hexit & Hafter & Hbefore & Hlast).
  assert (k' = k) as ->.
  { destruct (Nat.lt_trichotomy k' k) as [Hlt|[Heq|Hgt]]; [|exact Heq|].
    - assert (k' < times) as Hkt by lia.
      specialize (Hlast Hkt). specialize (Hfailed k' Hlt). congruence.
    - specialize (Hbefore k Hgt). rewrite Hsucc in Hbefore. discriminate. }
  rewrite Hexit, Hafter. auto.
Qed.

Section SuperVisorMore.

Context {X E State Msg : Type}.

Variable name : string.
Variable initalState : State.
Variable handler : State -> Msg -> Call (Effect.t X E State).

Local Abbreviation actor := (Actor X E State Msg).
Local Abbreviation body := (loopBody name initalState handler).
Local Abbreviation turn' := (turn name initalState handler).
Local Abbreviation run' := (run name initalState handler).
Local Abbreviation drain' := (drain name initalState handler).

(** The outcome does not depend on how calls and turns interleave: two
    schedules that offer the same envelopes in the same order bring an actor,
    once its mailbox is worked off, to the same cells and the same console. *)
Theorem outcome_is_independent_of_interleaving
    (schedule schedule' : list Action) (a : actor) :
  offered schedule = offered schedule' ->
  drain' (run' schedule a) = drain' (run' schedule' a).
Proof.
  intros Hsame. rewrite !drain_run, Hsame. reflexivity.
Qed.

(** The mailbox is a FIFO that loses nothing: at any time what was in it and
    what has been offered since is, in that order, what the loop has taken
    followed by what is still waiting, and the loop has taken at most one
    envelope for each of its turns. *)
Theorem mailbox_is_fifo (schedule : list Action) : forall a : actor,
  exists taken,
    queue a ++ offered schedule = taken ++ queue (run' schedule a) /\
    length taken + length (offered schedule) <= length schedule.
Proof.
  induction schedule as [|x schedule IH]; intros a.
  - exists []. cbn. rewrite app_nil_r. split; [reflexivity|lia].
  - cbn [run fold_left offered length].
    destruct (envelopeOf x) as [msg|] eqn:Hx.
    + rewrite (act_call name initalState handler x msg a Hx).
      destruct (IH (setQueue (queue a ++ [msg]) a)) as (taken & Hq & Hlen).
      exists taken. cbn [queue setQueue] in Hq. rewrite <- app_assoc in Hq.
      split; [exact Hq|]. cbn [length]. lia.
    + rewrite (act_turn name initalState handler x a Hx).
      destruct (IH (turn' a)) as (taken & Hq & Hlen).
      destruct (fiberRef a) as [|ended] eqn:Hf.
      * destruct (queue a) as [|msg rest] eqn:Hqa.
        -- rewrite (turn_waiting name initalState handler a Hqa) in *.
           exists taken. rewrite Hqa in Hq. split; [exact Hq|lia].
        -- rewrite (turn_running name initalState handler msg rest a Hf Hqa)
             in *.
           rewrite loopBody_queue in Hq. cbn [queue setQueue] in Hq.
           exists (msg :: taken). cbn [app length]. rewrite Hq.
           split; [reflexivity|lia].
      * rewrite (turn_done name initalState handler ended a Hf) in *.
        exists taken. split; [exact Hq|lia].
Qed.

(** A property of states kept by every successful run of the handler's
    effect is kept by every schedule. *)
Lemma run_keeps_invariant
    (P : State -> Prop) (Q : Msg -> Prop) (schedule : list Action) :
  P initalState ->
  (forall state payload op x' newState,
     P state -> Q payload ->
     handler state payload = Returns op ->
     exit (op x') = Success newState ->
     P newState) ->
  forall a : actor,
    P (stateRef a) -> Forall (admits Q) (queue a) ->
    Forall (admits Q) (offered schedule) ->
    P (stateRef (run' schedule a)).
Proof.
  intros Hinit Hkept.
  induction schedule as [|y schedule IH]; intros a HP HQ Hoffered;
    [exact HP|].
  cbn [run fold_left offered] in *.
  destruct (envelopeOf y) as [msg|] eqn:Hy.
  - rewrite (act_call name initalState handler y msg a Hy).
    inversion Hoffered as [|? ? Hmsg Hrest]; subst.
    apply IH; [exact HP| |exact Hrest].
    cbn [queue setQueue]. apply Forall_app. split; [exact HQ|].
    constructor; [exact Hmsg|constructor].
  - rewrite (act_turn name initalState handler y a Hy).
    destruct (fiberRef a) as [|ended] eqn:Hf.
    + destruct (queue a) as [|msg rest] eqn:Hqa.
      * rewrite (turn_waiting name initalState handler a Hqa).
        apply IH; [exact HP|rewrite Hqa; constructor|exact Hoffered].
      * rewrite (turn_running name initalState handler msg rest a Hf Hqa).
        inversion HQ as [|? ? Hmsg Hrest]; subst.
        apply IH; [| |exact Hoffered].
        -- rewrite loopBody_setQueue. cbn [stateRef setQueue].
           destruct msg as [payload| |]; cbn [loopBody];
             try (cbn; assumption).
           unfold logLine, absorb, Console.log.
           cbn [stateRef ext after output].
           destruct (handler (stateRef a) payload) as [op|thrown] eqn:Hcall;
             [|cbn; exact HP].
           destruct (exit (Effect.retry op 3 (ext a))) as [s'|e|d|] eqn:Hexit;
             cbn; try exact HP.
           destruct (retry_counted_runs op 3 (ext a) 0)
             as (k & _ & _ & Hk & _).
           destruct (nthRun_is_a_run op k (ext a)) as (x' & Hx').
           rewrite Hexit, Hx' in Hk. symmetry in Hk.
           exact (Hkept _ _ _ _ _ HP Hmsg Hcall Hk).
        -- rewrite loopBody_queue. cbn [queue setQueue]. exact Hrest.
    + rewrite (turn_done name initalState handler ended a Hf).
      apply IH; assumption.
Qed.

(** The state cell only ever holds the initial state or the result of a
    successful run of the handler's effect.  So a property [P] of states
    that holds of the initial state and is kept by every successful run on
    the payloads that are sent (those with [Q]) holds of what [getState]
    returns after any schedule. *)
Theorem state_cell_keeps_invariant
    (P : State -> Prop) (Q : Msg -> Prop) (x : X) (schedule : list Action) :
  P initalState ->
  (forall state payload op x' newState,
     P state -> Q payload ->
     handler state payload = Returns op ->
     exit (op x') = Success newState ->
     P newState) ->
  Forall (admits Q) (offered schedule) ->
  P (getState (run' schedule (createSuperVisor name initalState x))).
Proof.
  intros Hinit Hkept Hoffered.
  apply (run_keeps_invariant P Q schedule Hinit Hkept);
    [exact Hinit|constructor|exact Hoffered].
Qed.

(** A payload whose effect fails at first and then succeeds within the
    budget of three retries is applied: the turn stores the state of the
    first successful run, goes on from the external state that run left,
    and the loop keeps running. *)
Theorem payload_succeeding_within_budget_is_applied
    (a : actor) (payload : Msg) (rest : list (ActorMessage Msg))
    (op : Effect.t X E State) (k : nat) (newState : State) :
  fiberRef a = Running ->
  queue a = Message payload :: rest ->
  handler (stateRef a) payload = Returns op ->
  k <= 3 ->
  (forall j, j < k -> isFailure (exit (Effect.nthRun op j (ext a))) = true) ->
  exit (Effect.nthRun op k (ext a)) = Success newState ->
  getState (turn' a) = newState /\
  fiberRef (turn' a) = Running /\
  queue (turn' a) = rest /\
  ext (turn' a) = after (Effect.nthRun op k (ext a)).
Proof.
  intros Hf Hq Hcall Hk Hfailed Hsucc.
  destruct (retry_stops_at_first_success op 3 k (ext a) newState
              Hk Hfailed Hsucc) as (Hexit & Hafter).
  rewrite (turn_running name initalState handler (Message payload) rest a Hf Hq).
  unfold loopBody, logLine, absorb, Console.log.
  cbn [stateRef ext after output setQueue].
  rewrite Hcall, Hexit. cbn. rewrite Hafter. auto.
Qed.

(** A value thrown by the call of the handler is the one error the [catch]
    clause sees: it is written to the console once, after the line for the
    message, the state is left as it was, and the loop ends normally with
    the rest of the mailbox unread. *)
Theorem thrown_value_is_logged_and_ends_the_loop
    (a : actor) (payload : Msg) (rest : list (ActorMessage Msg))
    (thrown : string) :
  fiberRef a = Running ->
  queue a = Message payload :: rest ->
  handler (stateRef a) payload = Throws thrown ->
  getState (turn' a) = getState a /\
  fiberRef (turn' a) = Done (Success tt) /\
  queue (turn' a) = rest /\
  ext (turn' a) = ext a /\
  console (turn' a)
  = console a
    ++ ["Message Received"; "[" ++ name ++ "] Error " ++ thrown]%string.
Proof.
  intros Hf Hq Hcall.
  rewrite (turn_running name initalState handler (Message payload) rest a Hf Hq).
  unfold loopBody, logLine, absorb, Console.log.
  cbn [stateRef ext after output setQueue].
  rewrite Hcall. cbn. rewrite <- app_assoc. auto.
Qed.

(** A defect is not retried: when the first run of the handler's effect
    dies, that run is the only one, the state is left as it was, and the
    loop ends with the defect. *)
Theorem defect_is_not_retried
    (a : actor) (payload : Msg) (rest : list (ActorMessage Msg))
    (op : Effect.t X E State) (defect : string) :
  fiberRef a = Running ->
  queue a = Message payload :: rest ->
  handler (stateRef a) payload = Returns op ->
  exit (op (ext a)) = Die defect ->
  snd (after (Effect.retry (Effect.counted op) 3 (ext a, 0))) = 1 /\
  getState (turn' a) = getState a /\
  fiberRef (turn' a) = Done (Die defect) /\
  queue (turn' a) = rest /\
  ext (turn' a) = after (op (ext a)).
Proof.
  intros Hf Hq Hcall Hdie.
  assert (Effect.retry op 3 (ext a) = op (ext a)) as Hretry
    by (rewrite retry_unfold, Hdie; reflexivity).
  split.
  - rewrite retry_unfold, counted_run. cbn [exit after snd].
    rewrite Hdie. reflexivity.
  - rewrite (turn_running name initalState handler (Message payload) rest a
               Hf Hq).
    unfold loopBody, logLine, absorb, Console.log.
    cbn [stateRef ext after output setQueue].
    rewrite Hcall, Hretry, Hdie. cbn. auto.
Qed.

End SuperVisorMore.

(* ------------------------------------------------------------------ *)
(** ** [createSupervisedActor] against [createSuperVisor] *)

Section TwoActors.

Context {X E State Msg : Type}.

Variable name : string.
Variable initialState : State.
Variable handler : State -> Msg -> Call (Effect.t X E State).

Local Abbreviation actor := (Actor X E State Msg).

Lemma sameCells_setQueue (q : list (ActorMessage Msg)) (a b : actor) :
  sameCells a b -> sameCells (setQueue q a) (setQueue q b).
Proof.
  unfold sameCells. cbn. intros (_ & Hs & Hf & Hx & Hc). auto.
Qed.

Lemma sameCells_loopBody (msg : ActorMessage Msg) (a b : actor) :
  sameCells a b ->
  sameCells (loopBody name initialState handler msg a)
            (Supervised.loopBody name initialState handler msg b).
Proof.
  unfold sameCells. intros (Hq & Hs & Hf & Hx & Hc).
  destruct msg as [payload| |];
    unfold loopBody, Supervised.loopBody, Supervised.errorLine, logLine,
      absorb, Console.log, Console.error;
    cbn [queue stateRef fiberRef ext console after output finish setState].
  - rewrite <- Hs, <- Hx.
    destruct (handler (stateRef a) payload) as [op|thrown].
    + destruct (exit (Effect.retry op 3 (ext a))); cbn;
        rewrite !length_app, Hc; cbn; auto.
    + cbn. rewrite !length_app, Hc. cbn. auto.
  - cbn. rewrite !length_app, Hc. cbn. auto.
  - cbn. rewrite !length_app, Hc. cbn. auto.
Qed.

Lemma sameCells_act (x : Action) (a b : actor) :
  sameCells a b ->
  sameCells (act name initialState handler a x)
            (Supervised.act name initialState handler b x).
Proof.
  intros Hab. pose proof Hab as (Hq & Hs & Hf & Hx & Hc).
  destruct x; cbn [act Supervised.act send stop restart enqueue snd fst];
    try (rewrite Hq; apply sameCells_setQueue; exact Hab).
  unfold turn, Supervised.turn, actorLoop, Supervised.actorLoop.
  rewrite <- Hf, <- Hq.
  destruct (fiberRef a); [|exact Hab].
  destruct (queue a) as [|msg rest]; cbn [Queue.take]; [exact Hab|].
  apply sameCells_loopBody, sameCells_setQueue. exact Hab.
Qed.

Lemma sameCells_run (schedule : list Action) : forall a b : actor,
  sameCells a b ->
  sameCells (run name initialState handler schedule a)
            (Supervised.run name initialState handler schedule b).
Proof.
  induction schedule as [|x schedule IH]; intros a b Hab; [exact Hab|].
  cbn [run Supervised.run fold_left]. apply IH, sameCells_act. exact Hab.
Qed.

Lemma sameCells_created (x : X) :
  sameCells (createSuperVisor (E := E) (Msg := Msg) name initialState x)
            (Supervised.createSupervisedActor name initialState x).
Proof. unfold sameCells. cbn. auto. Qed.

(** The two actors of the source are the same machine: created on the same
    arguments and driven by the same schedule, [createSupervisedActor] and
    [createSuperVisor] have the same mailbox, the same state, the same fiber
    status and the same external state, and have written the same number of
    lines; only the texts of the loop differ. *)
Theorem supervised_actor_follows_supervisor (x : X) (schedule : list Action) :
  sameCells
    (run name initialState handler schedule
       (createSuperVisor name initialState x))
    (Supervised.run name initialState handler schedule
       (Supervised.createSupervisedActor name initialState x)).
Proof. apply sameCells_run, sameCells_created. Qed.

End TwoActors.

(* ------------------------------------------------------------------ *)
(** ** Accounts run by the actor *)

Local Open Scope Z_scope.

(** What a successful run of the handler's effect returns. *)
Lemma bankAccountHandler_success {N : Number}
    (E : Type) (state : BankAccount) (message : BankMessage)
    (op : Effect.t Clock E BankAccount) (c : Clock) (newState : BankAccount) :
  bankAccountHandler state message = Returns op ->
  exit (op c) = Success newState ->
  newState
  = match message with
    | deposit amount =>
        mkBankAccount (balance state + amount)%number
          (transactions state
           ++ [mkTransaction "deposit" amount (readings c (taken c))])
    | withdraw amount =>
        if (balance state <? amount)%number then state
        else
          mkBankAccount (balance state - amount)%number
            (transactions state
             ++ [mkTransaction "withdraw" amount (readings c (taken c))])
    | transfer to amount =>
        if (balance state <? amount)%number then state
        else
          mkBankAccount (balance state - amount)%number
            (transactions state
             ++ [mkTransaction "transfer" amount (readings c (taken c))])
    end.
Proof.
  intros Hcall Hexit.
  destruct (bankAccountHandler_run E state message c)
    as (op' & Hcall' & _ & Hexit').
  rewrite Hcall in Hcall'. inversion Hcall'; subst op'.
  rewrite Hexit in Hexit'. inversion Hexit'. reflexivity.
Qed.

Lemma admits_anything {Msg} (l : list (ActorMessage Msg)) :
  Forall (admits (fun _ => True)) l.
Proof.
  induction l as [|msg l IH]; constructor; [destruct msg; exact I|exact IH].
Qed.

(** The loop of a bank account ends on [Stop] and on nothing else. *)
Lemma bank_loopBody_fiber {N : Number}
    (E : Type) (name : string) (initalState : BankAccount)
    (msg : ActorMessage BankMessage)
    (a : Actor Clock E BankAccount BankMessage) :
  fiberRef (loopBody name initalState bankAccountHandler msg a)
  = match msg with
    | Stop => Done (Success tt)
    | _ => fiberRef a
    end.
Proof.
  destruct msg as [message| |]; [|reflexivity|reflexivity].
  unfold loopBody, logLine, absorb, Console.log.
  cbn [stateRef ext after output].
  destruct (bankAccountHandler_run E (stateRef a) message (ext a))
    as (op & Hcall & _ & Hexit).
  destruct (retry_first_success op 3 (ext a) _ Hexit) as (Hretry & _).
  rewrite Hcall, Hretry, Hexit. reflexivity.
Qed.

Lemma bank_live_fiber {N : Number}
    (E : Type) (name : string) (initalState : BankAccount)
    (events : list Event) :
  forall a : Actor Clock E BankAccount BankMessage,
    endsWell (fiberRef a) ->
    endsWell (fiberRef (live name initalState bankAccountHandler events a)) /\
    (fiberRef a = Running -> ~ In Stop (queue a) ->
     ~ In (Does CallStop) events -> ~ In CreatorEnds events ->
     fiberRef (live name initalState bankAccountHandler events a) = Running).
Proof.
  induction events as [|ev events IH]; intros a Hfiber;
    [split; [exact Hfiber|auto]|].
  unfold live in *. cbn [fold_left].
  destruct ev as [x|]; cbn [happen].
  - destruct (envelopeOf x) as [msg|] eqn:Hx.
    + rewrite (act_call name initalState bankAccountHandler x msg a Hx).
      destruct (IH (setQueue (queue a ++ [msg]) a) Hfiber) as (Hends & Hruns).
      split; [exact Hends|]. intros Hf Hqueue Hnostop Hlives. apply Hruns.
      * exact Hf.
      * cbn [queue setQueue]. intros Hin. apply in_app_or in Hin.
        destruct Hin as [Hin|[Hin|[]]]; [exact (Hqueue Hin)|].
        subst msg. apply Hnostop. left.
        destruct x; cbn in Hx; try discriminate. reflexivity.
      * intros Hin. apply Hnostop. right. exact Hin.
      * intros Hin. apply Hlives. right. exact Hin.
    + rewrite (act_turn name initalState bankAccountHandler x a Hx).
      destruct (fiberRef a) as [|ended] eqn:Hf.
      * destruct (queue a) as [|msg rest] eqn:Hq.
        -- rewrite (turn_waiting name initalState bankAccountHandler a Hq).
           destruct (IH a) as (Hends & Hruns);
             [rewrite Hf; left; reflexivity|].
           split; [exact Hends|]. intros _ _ Hnostop Hlives.
           apply Hruns; [exact Hf|rewrite Hq; intros []| |].
           ++ intros Hin. apply Hnostop. right. exact Hin.
           ++ intros Hin. apply Hlives. right. exact Hin.
        -- rewrite (turn_running name initalState bankAccountHandler msg rest a
                      Hf Hq).
           pose proof (bank_loopBody_fiber E name initalState msg
                         (setQueue rest a)) as Hbody.
           cbn [fiberRef setQueue] in Hbody. rewrite Hf in Hbody.
           destruct (IH (loopBody name initalState bankAccountHandler msg
                           (setQueue rest a))) as (Hends & Hruns).
           { rewrite Hbody. unfold endsWell. destruct msg; auto. }
           split; [exact Hends|]. intros _ Hqueue Hnostop Hlives.
           apply Hruns.
           ++ rewrite Hbody. destruct msg; try reflexivity.
              exfalso. apply Hqueue. left. reflexivity.
           ++ rewrite loopBody_queue. cbn [queue setQueue].
              intros Hin. apply Hqueue. right. exact Hin.
           ++ intros Hin. apply Hnostop. right. exact Hin.
           ++ intros Hin. apply Hlives. right. exact Hin.
      * rewrite (turn_done name initalState bankAccountHandler ended a Hf).
        rewrite <- Hf in Hfiber.
        destruct (IH a Hfiber) as (Hends & _).
        split; [exact Hends|]. intros Hcontra. discriminate.
  - destruct (IH (interrupt a)) as (Hends & _).
    { unfold interrupt. destruct (fiberRef a) eqn:Hf; [|rewrite Hf; exact Hfiber].
      right. right. reflexivity. }
    split; [exact Hends|]. intros _ _ _ Hlives.
    exfalso. apply Hlives. left. reflexivity.
Qed.

Lemma sameCells_live {X E State Msg} (name : string) (initialState : State)
    (handler : State -> Msg -> Call (Effect.t X E State))
    (events : list Event) :
  forall a b : Actor X E State Msg,
    sameCells a b ->
    sameCells (live name initialState handler events a)
              (Supervised.live name initialState handler events b).
Proof.
  induction events as [|ev events IH]; intros a b Hab; [exact Hab|].
  cbn [live Supervised.live fold_left]. apply IH.
  destruct ev as [x|]; cbn [happen Supervised.happen].
  - apply sameCells_act. exact Hab.
  - destruct Hab as (Hq & Hs & Hf & Hx & Hc).
    unfold interrupt. rewrite <- Hf.
    destruct (fiberRef a) eqn:Hfa; unfold sameCells; cbn; auto.
    rewrite Hfa. auto.
Qed.

Section DemoAccount.

Context {N : Number}.

Variable E : Type.
Variable name : string.
Variable opening : num.
Variable clock : Clock.
Variable schedule : list (Action (Msg := BankMessage)).

Local Abbreviation account :=
  (Supervised.run name (mkBankAccount opening []) (bankAccountHandler (E := E))
     schedule
     (Supervised.createSupervisedActor name (mkBankAccount opening []) clock)).

Local Abbreviation twin :=
  (run name (mkBankAccount opening []) (bankAccountHandler (E := E)) schedule
     (createSuperVisor name (mkBankAccount opening []) clock)).

Lemma account_twin : sameCells twin account.
Proof. apply sameCells_run, sameCells_created. Qed.

(** The total that the demo program computes from the history of an account
    with [reduce] is the balance of the account, whatever was sent to the
    actor and whenever it is read. *)
Theorem demo_total_is_the_balance :
  let account :=
    Supervised.run name (mkBankAccount opening []) (bankAccountHandler (E := E))
      schedule
      (Supervised.createSupervisedActor name (mkBankAccount opening []) clock)
  in
  accountTotal opening (transactions (getState account))
  = balance (getState account).
Proof.
  cbv zeta.
  destruct account_twin as (_ & Hstate & _). unfold getState.
  rewrite <- Hstate.
  apply (run_keeps_invariant name (mkBankAccount opening []) bankAccountHandler
           (fun s => accountTotal opening (transactions s) = balance s)
           (fun _ => True) schedule).
  - reflexivity.
  - intros state message op c newState HP _ Hcall Hexit.
    rewrite (bankAccountHandler_success E state message op c newState
               Hcall Hexit).
    unfold accountTotal in *.
    destruct message as [amount|amount|to amount];
      try destruct (less (balance state) amount);
      try exact HP;
      cbn [transactions balance]; rewrite fold_left_app; cbn [fold_left];
      rewrite HP; reflexivity.
  - reflexivity.
  - constructor.
  - apply admits_anything.
Qed.

(** The loop of an account never ends by a failure or a defect: after any
    calls and turns, and after the end of the fiber that created the actor,
    it is running, has ended normally on [Stop], or was interrupted; and it
    is still running when [stop] was never called and the creating fiber
    has not ended. *)
Theorem account_loop_ends_only_on_stop (events : list Event) :
  let account :=
    Supervised.live name (mkBankAccount opening [])
      (bankAccountHandler (E := E)) events
      (Supervised.createSupervisedActor name (mkBankAccount opening []) clock)
  in
  (fiberRef account = Running \/
   fiberRef account = Done (Success tt) \/
   fiberRef account = Done Interrupt) /\
  (~ In (Does CallStop) events -> ~ In CreatorEnds events ->
   fiberRef account = Running).
Proof.
  cbv zeta.
  destruct (sameCells_live name (mkBankAccount opening [])
              (bankAccountHandler (E := E)) events _ _
              (sameCells_created name (mkBankAccount opening []) clock))
    as (_ & _ & Hfiber & _).
  rewrite <- Hfiber.
  destruct (bank_live_fiber E name (mkBankAccount opening []) events
              (createSuperVisor name (mkBankAccount opening []) clock))
    as (Hends & Hruns); [left; reflexivity|].
  split; [exact Hends|]. intros Hnostop Hlives.
  apply Hruns; [reflexivity|intros []|exact Hnostop|exact Hlives].
Qed.

End DemoAccount.

Section DemoAccountOnIntegers.

Variable E : Type.
Variable name : string.
Variable opening : Z.
Variable clock : Clock.
Variable schedule : list (Action (Msg := BankMessage)).


End DemoAccountOnIntegers.



(** A transfer does nothing with its recipient: the account it leaves does
    not depend on [to], and its balance is the one the withdrawal of the
    same amount leaves; nothing is credited to anyone. *)
Theorem transfer_ignores_its_recipient {N : Number}
    (E : Type) (state : BankAccount) (to to' : string) (amount : num)
    (c : Clock) :
  exists (send send' take : Effect.t Clock E BankAccount)
         (sent taken' : BankAccount),
    bankAccountHandler state (transfer to amount) = Returns send /\
    bankAccountHandler state (transfer to' amount) = Returns send' /\
    bankAccountHandler state (withdraw amount) = Returns take /\
    exit (send c) = Success sent /\
    exit (send' c) = Success sent /\
    exit (take c) = Success taken' /\
    after (send c) = after (send' c) /\
    balance sent = balance taken' /\
    length (transactions sent) = length (transactions taken').
Proof.
  destruct (bankAccountHandler_run E state (transfer to amount) c)
    as (send & Hsend & Hafter & Hexit).
  destruct (bankAccountHandler_run E state (transfer to' amount) c)
    as (send' & Hsend' & Hafter' & Hexit').
  destruct (bankAccountHandler_run E state (withdraw amount) c)
    as (take & Htake & _ & Hexit'').
  exists send, send', take. eexists. eexists.
  split; [exact Hsend|]. split; [exact Hsend'|]. split; [exact Htake|].
  split; [exact Hexit|]. split; [exact Hexit'|]. split; [exact Hexit''|].
  split; [congruence|].
  destruct (less (balance state) amount); cbn [balance transactions];
    rewrite ?length_app; auto.
Qed.

Local Close Scope Z_scope.

(* ------------------------------------------------------------------ *)
(** ** The loop on the small handlers, once more *)

Lemma outcome_is_independent_of_interleaving_witness :
  offered [CallSend Increment; Turn; CallSend Increment; CallStop; Turn]
  = offered [CallSend Increment; CallSend Increment; Turn; Turn; CallStop]
  /\
  probeDrain
    (probeRun [CallSend Increment; Turn; CallSend Increment; CallStop; Turn]
       probeActor)
  = probeDrain
      (probeRun [CallSend Increment; CallSend Increment; Turn; Turn; CallStop]
         probeActor).
Proof.
  split; [reflexivity|].
  apply (outcome_is_independent_of_interleaving "probe" 0 probeHandler).
  reflexivity.
Defined.

Lemma state_cell_keeps_invariant_witness :
  let schedule := [CallSend (withdraw 200%Z); Turn; CallSend (withdraw 50%Z)] in
  let onlyWithdrawals :=
    fun message =>
      match message with withdraw amount => (0 <= amount)%Z | _ => False end in
  Forall (admits onlyWithdrawals) (offered schedule) /\
  (balance
     (getState
        (run "Alice" (mkBankAccount 1000%Z [])
           (bankAccountHandler (E := Empty_set)) schedule
           (createSuperVisor "Alice" (mkBankAccount 1000%Z [])
              (mkClock (fun _ => 0%Z) 0)))) <= 1000)%Z.
Proof.
  cbv zeta.
  assert (Forall
            (admits (fun message =>
                       match message with
                       | withdraw amount => (0 <= amount)%Z
                       | _ => False
                       end))
            (offered [CallSend (withdraw 200%Z); Turn; CallSend (withdraw 50%Z)]))
    as Hsent by (repeat constructor; cbn; lia).
  split; [exact Hsent|].
  refine (state_cell_keeps_invariant "Alice" (mkBankAccount 1000%Z [])
            (bankAccountHandler (E := Empty_set))
            (fun s => (balance s <= 1000)%Z) _ (mkClock (fun _ => 0%Z) 0)
            [CallSend (withdraw 200%Z); Turn; CallSend (withdraw 50%Z)]
            _ _ Hsent).
  - cbn. lia.
  - intros state message op c newState HP HQ Hcall Hexit.
    rewrite (bankAccountHandler_success Empty_set state message op c newState
               Hcall Hexit).
    destruct message as [amount|amount|to amount]; try contradiction.
    cbn [num plus minus less IntegerNumber].
    destruct (balance state <? amount)%Z; [exact HP|]. cbn [balance]. lia.
Defined.

Lemma payload_succeeding_within_budget_is_applied_witness :
  let a := snd (send tt (createSuperVisor (E := string) "net" 7 0)) in
  getState (turn "net" 7 flakyHandler a) = 3 /\
  fiberRef (turn "net" 7 flakyHandler a) = Running /\
  ext (turn "net" 7 flakyHandler a) = 4.
Proof.
  cbv zeta.
  destruct (payload_succeeding_within_budget_is_applied "net" 7 flakyHandler
              (snd (send tt (createSuperVisor (E := string) "net" 7 0)))
              tt [] flaky 3 3)
    as (Hstate & Hfiber & _ & Hext).
  - reflexivity.
  - reflexivity.
  - reflexivity.
  - lia.
  - intros j Hj. destruct j as [|[|[|j]]]; try reflexivity. lia.
  - reflexivity.
  - split; [exact Hstate|]. split; [exact Hfiber|]. exact Hext.
Defined.

Lemma thrown_value_is_logged_and_ends_the_loop_witness :
  let a := snd (send ThrowAtCall probeActor) in
  getState (probeTurn a) = 0 /\
  fiberRef (probeTurn a) = Done (Success tt) /\
  console (probeTurn a)
  = console a ++ ["Message Received"; "[probe] Error thrown"]%string.
Proof.
  cbv zeta.
  destruct (thrown_value_is_logged_and_ends_the_loop "probe" 0 probeHandler
              (snd (send ThrowAtCall probeActor)) ThrowAtCall [] "thrown"%string)
    as (Hstate & Hfiber & _ & _ & Hconsole);
    [reflexivity|reflexivity|reflexivity|].
  split; [exact Hstate|]. split; [exact Hfiber|exact Hconsole].
Defined.

Lemma defect_is_not_retried_witness :
  let a := snd (send Crash probeActor) in
  snd (after (Effect.retry (Effect.counted (Effect.die (E := string) (A := nat)
                                              "crash"%string)) 3 (tt, 0))) = 1 /\
  fiberRef (probeTurn a) = Done (Die "crash"%string) /\
  getState (probeTurn a) = 0.
Proof.
  cbv zeta.
  destruct (defect_is_not_retried "probe" 0 probeHandler
              (snd (send Crash probeActor)) Crash []
              (Effect.die "crash"%string) "crash"%string)
    as (Hruns & Hstate & Hfiber & _);
    [reflexivity|reflexivity|reflexivity|reflexivity|].
  split; [exact Hruns|]. split; [exact Hfiber|exact Hstate].
Defined.

Lemma account_loop_ends_only_on_stop_witness :
  let events :=
    [Does (CallSend (withdraw 5000%Z)); Does Turn;
     Does (CallSend (deposit (-3)%Z)); Does Turn] in
  ~ In (Does CallStop) events /\
  ~ In CreatorEnds events /\
  fiberRef
    (Supervised.live "Bob" (mkBankAccount 500%Z [])
       (bankAccountHandler (E := Empty_set)) events
       (Supervised.createSupervisedActor "Bob" (mkBankAccount 500%Z [])
          (mkClock (fun _ => 0%Z) 0)))
  = Running.
Proof.
  cbv zeta.
  assert (~ In (Does CallStop)
            [Does (CallSend (withdraw 5000%Z)); Does Turn;
             Does (CallSend (deposit (-3)%Z)); Does Turn]) as Hnostop.
  { intros Hin. repeat (destruct Hin as [Hin|Hin]; [discriminate|]).
    exact Hin. }
  assert (~ In (CreatorEnds (Msg := BankMessage))
            [Does (CallSend (withdraw 5000%Z)); Does Turn;
             Does (CallSend (deposit (-3)%Z)); Does Turn]) as Hlives.
  { intros Hin. repeat (destruct Hin as [Hin|Hin]; [discriminate|]).
    exact Hin. }
  split; [exact Hnostop|]. split; [exact Hlives|].
  exact (proj2 (account_loop_ends_only_on_stop Empty_set "Bob" 500%Z
                  (mkClock (fun _ => 0%Z) 0) _) Hnostop Hlives).
Defined.

(* ------------------------------------------------------------------ *)
(** ** The box around the demo's headings *)

Section PrintBoxFacts.

Variable char : Type.
Variables space horizontal vertical : char.
Variables topLeft topRight teeLeft teeRight bottomLeft bottomRight : char.

Lemma padEnd_length (str : list char) (targetLength : nat) :
  length (padEnd char space str targetLength)
  = Nat.max (length str) targetLength.
Proof.
  unfold padEnd. destruct (targetLength <=? length str) eqn:Hfits.
  - apply Nat.leb_le in Hfits. lia.
  - apply Nat.leb_gt in Hfits. rewrite length_app, repeat_length. lia.
Qed.

Lemma boxRow_length (text : list char) :
  length (boxRow char space vertical 60 text) = 4 + Nat.max (length text) 58.
Proof.
  unfold boxRow. rewrite !length_app, padEnd_length. cbn. lia.
Qed.

Lemma frame_length (left right : char) :
  length ([left] ++ repeat horizontal 60 ++ [right]) = 62.
Proof. rewrite !length_app, repeat_length. reflexivity. Qed.

(** [padEnd] only adds: the string it is given is the beginning of what it
    returns, and it comes back unchanged when it is long enough already. *)
Lemma padEnd_keeps_the_text (str : list char) (targetLength : nat) :
  firstn (length str) (padEnd char space str targetLength) = str.
Proof.
  unfold padEnd. destruct (targetLength <=? length str).
  - apply firstn_all.
  - rewrite firstn_app, Nat.sub_diag, firstn_all. cbn. apply app_nil_r.
Qed.

(** The box has a line for the title and one for each entry of the content
    between its three frame lines, and it is a rectangle of 62 code units
    exactly when the title and every entry are at most 58 code units long:
    a longer text is not cut and pushes its row beyond the frame. *)
Theorem printBox_is_a_rectangle_when_texts_fit
    (title : list char) (content : list (list char)) :
  let written :=
    printBox char space horizontal vertical topLeft topRight teeLeft teeRight
      bottomLeft bottomRight title content in
  length written = length content + 4 /\
  (Forall (fun row => length row = 62) written <->
   length title <= 58 /\ Forall (fun text => length text <= 58) content).
Proof.
  cbv zeta. unfold printBox. split.
  - rewrite !length_app, length_map. cbn. lia.
  - rewrite !Forall_app, Forall_map. cbn [app].
    split.
    + intros (Hhead & Hrows & _).
      inversion Hhead as [|? ? _ Hrest]; subst.
      inversion Hrest as [|? ? Htitle _]; subst.
      rewrite boxRow_length in Htitle.
      split; [lia|].
      eapply Forall_impl; [|exact Hrows].
      intros text Hrow. cbv beta in Hrow.
      rewrite boxRow_length in Hrow. lia.
    + intros (Htitle & Hcontent).
      split; [|split].
      * constructor; [apply frame_length|].
        constructor; [rewrite boxRow_length; lia|].
        constructor; [apply frame_length|constructor].
      * eapply Forall_impl; [|exact Hcontent].
        intros text Htext. cbv beta in *. rewrite boxRow_length. lia.
      * constructor; [apply frame_length|constructor].
Qed.

(** Every text is printed whole and in order: the row of the title and the
    row of each entry of the content begin with a bar and a space and go on
    with the text itself, however long it is. *)
Theorem printBox_prints_every_text_whole
    (title : list char) (content : list (list char)) (i : nat)
    (text : list char) :
  nth_error (title :: content) i = Some text ->
  exists row,
    nth_error
      (printBox char space horizontal vertical topLeft topRight teeLeft
         teeRight bottomLeft bottomRight title content)
      (if i =? 0 then 1 else i + 2) = Some row /\
    firstn (2 + length text) row = [vertical; space] ++ text.
Proof.
  intros Hnth. exists (boxRow char space vertical 60 text).
  assert (firstn (2 + length text) (boxRow char space vertical 60 text)
          = [vertical; space] ++ text) as Hrow.
  { unfold boxRow. change (60 - 2) with 58.
    cbn [app firstn Nat.add]. f_equal. f_equal.
    rewrite firstn_app.
    pose proof (padEnd_keeps_the_text text 58) as Hkeep.
    assert (length text <= length (padEnd char space text 58)) as Hlen
      by (rewrite padEnd_length; lia).
    replace (length text - length (padEnd char space text 58)) with 0 by lia.
    cbn [firstn]. rewrite app_nil_r. exact Hkeep. }
  split; [|exact Hrow].
  unfold printBox. destruct i as [|i]; cbn [Nat.eqb nth_error] in *.
  - inversion Hnth. reflexivity.
  - replace (S i + 2) with (S (S (S i))) by lia.
    cbn [app nth_error].
    rewrite nth_error_app1.
    + rewrite nth_error_map, Hnth. reflexivity.
    + rewrite length_map. apply nth_error_Some. congruence.
Qed.

End PrintBoxFacts.

Lemma printBox_prints_every_text_whole_witness :
  nth_error ([5; 6] :: [[7]; [8; 9]]) 2 = Some [8; 9] /\
  exists row,
    nth_error (printBox nat 0 1 2 3 4 5 6 7 8 [5; 6] [[7]; [8; 9]]) 4
    = Some row /\
    firstn 4 row = [2; 0; 8; 9].
Proof.
  split; [reflexivity|].
  exact (printBox_prints_every_text_whole nat 0 1 2 3 4 5 6 7 8
           [5; 6] [[7]; [8; 9]] 2 [8; 9] eq_refl).
Defined.

(* ------------------------------------------------------------------ *)
(** ** The history of an account and the clock *)

Local Open Scope Z_scope.

Lemma StronglySorted_snoc (l : list Z) (t : Z) :
  StronglySorted Z.le l -> Forall (fun u => u <= t) l ->
  StronglySorted Z.le (l ++ [t]).
Proof.
  induction l as [|u l IH]; intros Hsorted Hbelow; cbn.
  - constructor; constructor.
  - apply StronglySorted_inv in Hsorted. destruct Hsorted as (Hl & Hu).
    inversion Hbelow as [|? ? Hut Hrest]; subst.
    constructor; [apply IH; assumption|].
    apply Forall_app. split; [exact Hu|constructor; [exact Hut|constructor]].
Qed.

Section Chronology.

Context {N : Number}.

Variable E : Type.
Variable name : string.
Variable opening : num.
Variable ticks : nat -> Z.

Hypothesis ticks_go_forward : forall i j, (i <= j)%nat -> ticks i <= ticks j.

Lemma chronological_loopBody
    (msg : ActorMessage BankMessage)
    (a : Actor Clock E BankAccount BankMessage) :
  chronological ticks a ->
  chronological ticks
    (loopBody name (mkBankAccount opening []) bankAccountHandler msg a).
Proof.
  intros (Hclock & Hsorted & Hbelow).
  destruct msg as [message| |].
  - unfold loopBody, logLine, absorb, Console.log.
    cbn [stateRef ext after output].
    destruct (bankAccountHandler_run E (stateRef a) message (ext a))
      as (op & Hcall & Hafter & Hexit).
    destruct (retry_first_success op 3 (ext a) _ Hexit) as (Hretry & _).
    rewrite Hcall, Hretry, Hexit.
    unfold chronological. cbn [stateRef ext setState absorb].
    rewrite Hafter. cbn [readings taken].
    assert (Forall (fun t => t <= ticks (S (taken (ext a))))
              (map timestamp (transactions (stateRef a)))) as Hbelow'.
    { eapply Forall_impl; [|exact Hbelow]. intros t Ht. cbv beta in *.
      pose proof (ticks_go_forward (taken (ext a)) (S (taken (ext a)))
                    (Nat.le_succ_diag_r _)). lia. }
    assert (forall kind amount,
               StronglySorted Z.le
                 (map timestamp
                    (transactions (stateRef a)
                     ++ [mkTransaction kind amount
                           (readings (ext a) (taken (ext a)))])) /\
               Forall (fun t => t <= ticks (S (taken (ext a))))
                 (map timestamp
                    (transactions (stateRef a)
                     ++ [mkTransaction kind amount
                           (readings (ext a) (taken (ext a)))]))) as Hnew.
    { intros kind amount. rewrite map_app. cbn [map timestamp]. rewrite Hclock.
      split.
      - apply StronglySorted_snoc; assumption.
      - apply Forall_app. split; [exact Hbelow'|].
        constructor; [|constructor].
        apply ticks_go_forward. lia. }
    split; [exact Hclock|].
    destruct message as [amount|amount|to amount];
      try destruct (less (balance (stateRef a)) amount);
      cbn [transactions]; try apply Hnew; split; assumption.
  - exact (conj Hclock (conj Hsorted Hbelow)).
  - unfold chronological. cbn. split; [exact Hclock|].
    split; constructor.
Qed.

Lemma chronological_run (schedule : list Action) :
  forall a : Actor Clock E BankAccount BankMessage,
    chronological ticks a ->
    chronological ticks
      (run name (mkBankAccount opening []) bankAccountHandler schedule a).
Proof.
  induction schedule as [|x schedule IH]; intros a Ha; [exact Ha|].
  cbn [run fold_left]. apply IH.
  destruct (envelopeOf x) as [msg|] eqn:Hx.
  - rewrite (act_call name _ bankAccountHandler x msg a Hx). exact Ha.
  - rewrite (act_turn name _ bankAccountHandler x a Hx).
    unfold turn, actorLoop.
    destruct (fiberRef a); [|exact Ha].
    destruct (queue a) as [|msg rest]; cbn [Queue.take]; [exact Ha|].
    apply chronological_loopBody. exact Ha.
Qed.

(** With a clock that never goes back, the history of an account is in the
    order of time: the times recorded with its transactions never decrease
    along the list, whatever is sent to the actor and whenever. *)
Theorem account_history_is_in_order_of_time (schedule : list Action) :
  StronglySorted Z.le
    (map timestamp
       (transactions
          (getState
             (Supervised.run name (mkBankAccount opening [])
                (bankAccountHandler (E := E)) schedule
                (Supervised.createSupervisedActor name
                   (mkBankAccount opening []) (mkClock ticks 0)))))).
Proof.
  destruct (sameCells_run name (mkBankAccount opening [])
              (bankAccountHandler (E := E)) schedule _ _
              (sameCells_created name (mkBankAccount opening [])
                 (mkClock ticks 0)))
    as (_ & Hstate & _).
  unfold getState. rewrite <- Hstate.
  apply chronological_run.
  unfold chronological. cbn. split; [reflexivity|]. split; constructor.
Qed.

End Chronology.

Lemma account_history_is_in_order_of_time_witness :
  (forall i j, (i <= j)%nat -> Z.of_nat i <= Z.of_nat j) /\
  StronglySorted Z.le
    (map timestamp
       (transactions
          (getState
             (Supervised.run "Alice" (mkBankAccount 1000 [])
                (bankAccountHandler (E := Empty_set))
                [CallSend (deposit 500); CallSend (withdraw 200); Turn; Turn]
                (Supervised.createSupervisedActor "Alice"
                   (mkBankAccount 1000 []) (mkClock Z.of_nat 0)))))).
Proof.
  assert (forall i j, (i <= j)%nat -> Z.of_nat i <= Z.of_nat j) as Hforward
    by (intros i j Hij; lia).
  split; [exact Hforward|].
  exact (account_history_is_in_order_of_time (N := IntegerNumber) Empty_set
           "Alice" 1000 Z.of_nat Hforward _).
Defined.

Local Close Scope Z_scope.
